(** * A shallow embedding of the node-addon-layer shim (src/shim.cc)

    The shim wraps V8 handles into tagged values ([shim_val_t]), adapts the
    runtime's native call convention through the trampoline [Static], and
    offers typed argument unpacking.  V8 itself is not part of the
    repository: its predicates and coercions are an interface ([Runtime]),
    and a small instance ([Toy.runtime]) serves to run the code on
    concrete inputs.

    C pointers to [shim_val_t] are addresses into a heap of cells; the two
    statically allocated sentinels sit at addresses 0 and 1, and [malloc]
    hands out the next fresh address.  Stateful code is written in a
    state-and-failure monad: [None] stands for undefined behaviour of the
    C program (null dereference, use after free, invalid free, a failed
    assert).  The [ctx] argument of the C functions points to the TryCatch
    of the current call; here that is the [trycatch] field of the state,
    so the argument is left out.  The state also carries a trace of the
    runtime type tests, the calls of [shim_value_release] and the frees,
    which the code does not read: it is there to count them. *)

From Stdlib Require Import Ascii String DecimalString.
From stdpp Require Import numbers list strings.

Set Default Proof Using "Type".
Open Scope string_scope.
Open Scope list_scope.
Open Scope nat_scope.

(** ** Type tags (shim.h; the order is the one of [shim_type_str]) *)

Inductive shim_type_t :=
  | SHIM_TYPE_UNKNOWN
  | SHIM_TYPE_UNDEFINED
  | SHIM_TYPE_NULL
  | SHIM_TYPE_BOOL
  | SHIM_TYPE_DATE
  | SHIM_TYPE_ARRAY
  | SHIM_TYPE_OBJECT
  | SHIM_TYPE_INTEGER
  | SHIM_TYPE_INT32
  | SHIM_TYPE_UINT32
  | SHIM_TYPE_NUMBER
  | SHIM_TYPE_EXTERNAL
  | SHIM_TYPE_FUNCTION
  | SHIM_TYPE_STRING
  | SHIM_TYPE_BUFFER.

#[global] Instance shim_type_t_eq_dec : EqDecision shim_type_t.
Proof. solve_decision. Defined.

Abbreviation shim_bool_t := bool (only parsing).
Abbreviation TRUE := true (only parsing).
Abbreviation FALSE := false (only parsing).

Inductive shim_err_type := SHIM_ERR_ERROR | SHIM_ERR_TYPE | SHIM_ERR_RANGE.

Definition SHIM_ERROR_LENGTH : nat := 512.

(** ** The embedded runtime (V8 and node::Buffer), as an interface *)

(** The runtime's predicates, coercions and extractors, as functions of the
    value they are applied to.  The coercions are given where they return
    a value.  Where the runtime raises instead ([ToObject] of undefined or
    null, [ToNumber] of an object whose [valueOf] throws) it hands back an
    empty handle and leaves the exception in the TryCatch: such a call is
    not described by this interface. *)
Class Runtime := {
  Value : Type;
  Double : Type;
  Undefined : Value;
  Null : Value;
  IsObject : Value -> bool;
  IsString : Value -> bool;
  IsNumber : Value -> bool;
  IsInt32 : Value -> bool;
  IsUint32 : Value -> bool;
  IsArray : Value -> bool;
  IsBoolean : Value -> bool;
  IsUndefined : Value -> bool;
  IsNull : Value -> bool;
  IsExternal : Value -> bool;
  IsDate : Value -> bool;
  IsFunction : Value -> bool;
  Buffer_HasInstance : Value -> bool;
  ToBoolean : Value -> Value;
  ToObject : Value -> Value;
  ToString : Value -> Value;
  ToInt32 : Value -> Value;
  ToUint32 : Value -> Value;
  ToNumber : Value -> Value;
  BooleanValue : Value -> bool;
  IntegerValue : Value -> Z;
  Uint32Value : Value -> Z;
  Int32Value : Value -> Z;
  NumberValue : Value -> Double;
  External_Unwrap : Value -> Z;
  Buffer_Data : Value -> Z;
  String_New : string -> Value;
  Exception_Error : Value -> Value;
  Exception_TypeError : Value -> Value;
  Exception_RangeError : Value -> Value;
}.

(** ** printf-style formatting (libc), for the directives the shim uses *)

Inductive fmt_arg :=
  | FmtInt (z : Z)
  | FmtStr (s : string).

Definition decimal (z : Z) : string := NilZero.string_of_int (Z.to_int z).

(** Expansion of a format string; [None] when a directive has no matching
    argument (undefined behaviour in C). *)
Fixpoint c_format (fmt : string) (ap : list fmt_arg) : option string :=
  match fmt with
  | EmptyString => Some EmptyString
  | String c rest =>
      if Ascii.eqb c "%"%char then
        match rest with
        | String d rest' =>
            if Ascii.eqb d "d"%char then
              match ap with
              | FmtInt z :: ap' =>
                  option_map (String.append (decimal z)) (c_format rest' ap')
              | _ => None
              end
            else if Ascii.eqb d "s"%char then
              match ap with
              | FmtStr s :: ap' =>
                  option_map (String.append s) (c_format rest' ap')
              | _ => None
              end
            else if Ascii.eqb d "%"%char then
              option_map (String "%"%char) (c_format rest' ap)
            else None
        | EmptyString => None
        end
      else option_map (String c) (c_format rest ap)
  end.

(** The prefix of a byte sequence up to its first NUL: what a reader of a
    C string sees. *)
Fixpoint c_str (buf : string) : string :=
  match buf with
  | EmptyString => EmptyString
  | String c rest =>
      if Ascii.eqb c Ascii.zero then EmptyString else String c (c_str rest)
  end.

(** [vsnprintf(buf, size, ...)]: the bytes written into [buf], terminator
    included: at most [size - 1] bytes of the expansion, then NUL; nothing
    when [size] is 0.  Its return value is ignored by the shim. *)
Definition vsnprintf (size : nat) (formatted : string) : string :=
  match size with
  | 0 => EmptyString
  | S n => String.append (substring 0 n formatted) (String Ascii.zero EmptyString)
  end.

Section Shim.
Context `{RT : Runtime}.

(** ** Tagged values, the heap and the machine state *)

Definition loc := nat.

Record shim_val_t := mk_val {
  handle : option Value;   (* void* handle; None is NULL *)
  type : shim_type_t;
}.

(** Storage written by [shim_unpack]: one cell per caller-supplied
    destination.  A [void*] that points to no such cell is an index past
    the end of [dests]: reading or writing through it has no result. *)
Inductive raw :=
  | RawUninit
  | RawBool (b : shim_bool_t)
  | RawInt64 (z : Z)
  | RawUint32 (z : Z)
  | RawInt32 (z : Z)
  | RawDouble (d : Double)
  | RawPtr (p : Z)
  | RawVal (p : loc).

Inductive event :=
  | EvTest (v : Value) (ty : shim_type_t)  (* a runtime type test made by shim_value_is *)
  | EvRelease (p : option loc)             (* a call of shim_value_release *)
  | EvFree (p : loc).                      (* a call of free *)

Record state := mk_state {
  heap : list (option shim_val_t);  (* None: a freed cell *)
  dests : list raw;
  trycatch : option Value;          (* the exception held by ctx_trycatch *)
  trace : list event;               (* ghost: what was done, oldest first *)
}.

Definition M (A : Type) : Type := state -> option (A * state).

Definition st_ret {A} (a : A) : M A := fun s => Some (a, s).
Definition st_bind {A B} (m : M A) (f : A -> M B) : M B :=
  fun s => match m s with
           | Some (a, s') => f a s'
           | None => None
           end.
Definition st_fail {A} : M A := fun _ => None.
Definition st_lift {A} (o : option A) : M A :=
  fun s => match o with Some a => Some (a, s) | None => None end.

Notation "x <- m ;; k" := (st_bind m (fun x => k))
  (at level 100, m at next level, right associativity).
Notation "m ;;; k" := (st_bind m (fun _ => k))
  (at level 100, right associativity).

Definition log (e : event) : M unit :=
  fun s => Some (tt, mk_state (heap s) (dests s) (trycatch s) (trace s ++ [e])).

Definition load (p : loc) : M shim_val_t :=
  fun s => match heap s !! p with
           | Some (Some v) => Some (v, s)
           | _ => None
           end.

Definition store (p : loc) (v : shim_val_t) : M unit :=
  fun s => match heap s !! p with
           | Some (Some _) =>
               Some (tt, mk_state (<[p := Some v]> (heap s)) (dests s)
                                  (trycatch s) (trace s))
           | _ => None
           end.

Definition set_handle (p : loc) (h : option Value) : M unit :=
  v <- load p ;; store p (mk_val h (type v)).

Definition set_type (p : loc) (ty : shim_type_t) : M unit :=
  v <- load p ;; store p (mk_val (handle v) ty).

(** The sentinels are static objects, not malloc'd. *)
Definition is_static (p : loc) : bool := p <? 2.

Definition malloc (v : shim_val_t) : M loc :=
  fun s => Some (length (heap s),
                 mk_state (heap s ++ [Some v]) (dests s) (trycatch s) (trace s)).

Definition free (p : loc) : M unit :=
  fun s => if is_static p then None else
           match heap s !! p with
           | Some (Some _) =>
               Some (tt, mk_state (<[p := None]> (heap s)) (dests s)
                                  (trycatch s) (trace s ++ [EvFree p]))
           | _ => None
           end.

Definition write_dest (d : nat) (r : raw) : M unit :=
  fun s => if decide (d < length (dests s)) then
             Some (tt, mk_state (heap s) (<[d := r]> (dests s))
                                (trycatch s) (trace s))
           else None.

Definition read_dest (d : nat) : M raw := fun s => st_lift (dests s !! d) s.

(** SHIM_TO_VAL followed by a use [obj->...] of the handle. *)
Definition deref (v : shim_val_t) : M Value := st_lift (handle v).

(** ** Sentinels (shim.cc 93-101, 507-518) *)

Definition shim__undefined : shim_val_t := mk_val None SHIM_TYPE_UNDEFINED.
Definition shim__null : shim_val_t := mk_val None SHIM_TYPE_NULL.

Definition shim_undefined : loc := 0.
Definition shim_null : loc := 1.

Definition initial_state : state :=
  mk_state [Some shim__undefined; Some shim__null] [] None [].

(** shim.cc 109-117 *)
Definition shim_val_alloc (val : Value) (ty : shim_type_t) : M loc :=
  malloc (mk_val (Some val) ty).

(** ** shim_value_is (shim.cc 347-411) *)

(** The switch: which runtime predicate answers for which tag. *)
Definition shim_value_is_test (ty : shim_type_t) : option (Value -> bool) :=
  match ty with
  | SHIM_TYPE_OBJECT => Some IsObject
  | SHIM_TYPE_STRING => Some IsString
  | SHIM_TYPE_NUMBER => Some IsNumber
  | SHIM_TYPE_INTEGER => Some IsNumber
  | SHIM_TYPE_INT32 => Some IsInt32
  | SHIM_TYPE_UINT32 => Some IsUint32
  | SHIM_TYPE_ARRAY => Some IsArray
  | SHIM_TYPE_BOOL => Some IsBoolean
  | SHIM_TYPE_UNDEFINED => Some IsUndefined
  | SHIM_TYPE_NULL => Some IsNull
  | SHIM_TYPE_EXTERNAL => Some IsExternal
  | SHIM_TYPE_DATE => Some IsDate
  | SHIM_TYPE_FUNCTION => Some IsFunction
  | SHIM_TYPE_BUFFER => Some Buffer_HasInstance
  | SHIM_TYPE_UNKNOWN => None
  end.

Definition shim_value_is (val : loc) (ty : shim_type_t) : M shim_bool_t :=
  v <- load val ;;
  if decide (type v = ty) then st_ret TRUE
  else
    match shim_value_is_test ty with
    | None => st_ret FALSE
    | Some test =>
        obj <- deref v ;;
        log (EvTest obj ty) ;;;
        let r := test obj in
        (if r then set_type val ty else st_ret tt) ;;;
        st_ret r
    end.

(** ** shim_value_to (shim.cc 414-504) *)

Definition OBJ_TO_ARRAY (obj : Value) : Value := if IsArray obj then obj else obj.
Definition OBJ_TO_OBJECT (obj : Value) : Value :=
  if IsObject obj then obj else ToObject obj.
Definition OBJ_TO_STRING (obj : Value) : Value :=
  if IsObject obj then obj else ToString obj.
Definition OBJ_TO_INT32 (obj : Value) : Value := ToInt32 obj.
Definition OBJ_TO_UINT32 (obj : Value) : Value := ToUint32 obj.
Definition OBJ_TO_NUMBER (obj : Value) : Value :=
  if IsNumber obj then obj else ToNumber obj.
Definition OBJ_TO_EXTERNAL (obj : Value) : Value :=
  if IsExternal obj then obj else obj.
Definition OBJ_TO_FUNCTION (obj : Value) : Value :=
  if IsFunction obj then obj else obj.

(** The coercions of the switch that end in [break]. *)
Definition shim_value_to_coerce (ty : shim_type_t) : option (Value -> Value) :=
  match ty with
  | SHIM_TYPE_BOOL => Some ToBoolean
  | SHIM_TYPE_ARRAY => Some OBJ_TO_ARRAY
  | SHIM_TYPE_OBJECT => Some OBJ_TO_OBJECT
  | SHIM_TYPE_INTEGER => Some OBJ_TO_NUMBER
  | SHIM_TYPE_INT32 => Some OBJ_TO_INT32
  | SHIM_TYPE_UINT32 => Some OBJ_TO_UINT32
  | SHIM_TYPE_NUMBER => Some OBJ_TO_NUMBER
  | SHIM_TYPE_EXTERNAL => Some OBJ_TO_EXTERNAL
  | SHIM_TYPE_FUNCTION => Some OBJ_TO_FUNCTION
  | _ => None
  end.

Definition shim_value_to (val : loc) (ty : shim_type_t) (rval : loc)
  : M shim_bool_t :=
  v <- load val ;;
  if decide (type v = ty) then
    set_type rval ty ;;;
    v' <- load val ;;
    set_handle rval (handle v') ;;;
    st_ret TRUE
  else
    match ty with
    | SHIM_TYPE_UNDEFINED =>
        set_handle rval (Some Undefined) ;;; set_type rval ty ;;; st_ret TRUE
    | SHIM_TYPE_NULL =>
        set_handle rval (Some Null) ;;; set_type rval ty ;;; st_ret TRUE
    | SHIM_TYPE_STRING =>
        (* no break after this case: control falls into the default *)
        obj <- deref v ;;
        set_handle rval (Some (OBJ_TO_STRING obj)) ;;;
        st_ret FALSE
    | _ =>
        match shim_value_to_coerce ty with
        | Some coerce =>
            obj <- deref v ;;
            set_handle rval (Some (coerce obj)) ;;;
            set_type rval ty ;;;
            st_ret TRUE
        | None => st_ret FALSE
        end
    end.

(** ** shim_value_release (shim.cc 527-533) *)

Definition shim_value_release (val : option loc) : M unit :=
  log (EvRelease val) ;;;
  match val with
  | None => st_ret tt
  | Some p =>
      v <- load p ;;
      if negb (bool_decide (type v = SHIM_TYPE_NULL))
         && negb (bool_decide (type v = SHIM_TYPE_UNDEFINED))
      then free p
      else st_ret tt
  end.

(** ** The exception bridge (shim.cc 151-180, 1412-1538) *)

(** [ThrowException]: the value becomes the exception held by the
    enclosing TryCatch of the context. *)
Definition ThrowException (v : Value) : M unit :=
  fun s => Some (tt, mk_state (heap s) (dests s) (Some v) (trace s)).

Definition shim_format_error (ty : shim_err_type) (msg : string)
    (ap : list fmt_arg) : M Value :=
  formatted <- st_lift (c_format msg ap) ;;
  let buf := vsnprintf SHIM_ERROR_LENGTH formatted in
  let str := String_New (c_str buf) in
  st_ret match ty with
         | SHIM_ERR_ERROR => Exception_Error str
         | SHIM_ERR_TYPE => Exception_TypeError str
         | SHIM_ERR_RANGE => Exception_RangeError str
         end.

Definition shim_error_new (msg : string) (ap : list fmt_arg) : M loc :=
  err <- shim_format_error SHIM_ERR_ERROR msg ap ;;
  shim_val_alloc err SHIM_TYPE_UNKNOWN.

Definition shim_error_type_new (msg : string) (ap : list fmt_arg) : M loc :=
  err <- shim_format_error SHIM_ERR_TYPE msg ap ;;
  shim_val_alloc err SHIM_TYPE_UNKNOWN.

Definition shim_error_range_new (msg : string) (ap : list fmt_arg) : M loc :=
  err <- shim_format_error SHIM_ERR_RANGE msg ap ;;
  shim_val_alloc err SHIM_TYPE_UNKNOWN.

Definition shim_exception_pending : M shim_bool_t :=
  fun s => Some (bool_decide (is_Some (trycatch s)), s).

(** An empty handle makes the runtime throw its undefined value. *)
Definition shim_exception_set (val : loc) : M unit :=
  v <- load val ;;
  ThrowException (default Undefined (handle v)).

Definition shim_exception_get (rval : loc) : M shim_bool_t :=
  exc <- (fun s => Some (trycatch s, s)) ;;
  set_handle rval exc ;;;
  st_ret TRUE.

Definition shim_exception_clear : M unit :=
  fun s => Some (tt, mk_state (heap s) (dests s) None (trace s)).

Definition shim_throw_error (msg : string) (ap : list fmt_arg) : M unit :=
  err <- shim_format_error SHIM_ERR_ERROR msg ap ;; ThrowException err.

Definition shim_throw_type_error (msg : string) (ap : list fmt_arg) : M unit :=
  err <- shim_format_error SHIM_ERR_TYPE msg ap ;; ThrowException err.

Definition shim_throw_range_error (msg : string) (ap : list fmt_arg) : M unit :=
  err <- shim_format_error SHIM_ERR_RANGE msg ap ;; ThrowException err.

(** shim.cc 1761-1787 *)
Definition shim_type_str (ty : shim_type_t) : string :=
  match ty with
  | SHIM_TYPE_UNKNOWN => "SHIM_TYPE_UNKNOWN"
  | SHIM_TYPE_UNDEFINED => "SHIM_TYPE_UNDEFINED"
  | SHIM_TYPE_NULL => "SHIM_TYPE_NULL"
  | SHIM_TYPE_BOOL => "SHIM_TYPE_BOOL"
  | SHIM_TYPE_DATE => "SHIM_TYPE_DATE"
  | SHIM_TYPE_ARRAY => "SHIM_TYPE_ARRAY"
  | SHIM_TYPE_OBJECT => "SHIM_TYPE_OBJECT"
  | SHIM_TYPE_INTEGER => "SHIM_TYPE_INTEGER"
  | SHIM_TYPE_INT32 => "SHIM_TYPE_INT32"
  | SHIM_TYPE_UINT32 => "SHIM_TYPE_UINT32"
  | SHIM_TYPE_NUMBER => "SHIM_TYPE_NUMBER"
  | SHIM_TYPE_EXTERNAL => "SHIM_TYPE_EXTERNAL"
  | SHIM_TYPE_FUNCTION => "SHIM_TYPE_FUNCTION"
  | SHIM_TYPE_STRING => "SHIM_TYPE_STRING"
  | SHIM_TYPE_BUFFER => "SHIM_TYPE_BUFFER"
  end.

(** ** The call frame (shim.h) and its accessors (shim.cc 1656-1712) *)

Record shim_args_t := mk_args {
  argc : nat;
  argv : list loc;
  ret : option loc;     (* None is a NULL return slot *)
  self : loc;
  data : Z;
}.

Definition shim_args_length (args : shim_args_t) : nat := argc args.

Definition shim_args_get (args : shim_args_t) (idx : nat) : M loc :=
  st_lift (argv args !! idx).

Definition shim_args_set_rval (args : shim_args_t) (val : option loc)
  : shim_bool_t * shim_args_t :=
  (TRUE, mk_args (argc args) (argv args) val (self args) (data args)).

Definition shim_args_get_this (args : shim_args_t) : loc := self args.
Definition shim_args_get_data (args : shim_args_t) : Z := data args.

(** ** Argument unpacking (shim.cc 1547-1650) *)

Definition shim_external_value (obj : loc) : M Z :=
  v <- load obj ;; e <- deref v ;; st_ret (External_Unwrap e).

Definition shim_buffer_value (val : loc) : M Z :=
  w <- load val ;; v <- deref w ;;
  if Buffer_HasInstance v then st_ret (Buffer_Data v) else st_fail.

Definition shim_unpack_type (arg : loc) (ty : shim_type_t) (rval : nat)
  : M shim_bool_t :=
  ok <- shim_value_is arg ty ;;
  if negb ok then st_ret FALSE
  else
    v <- load arg ;;
    (* line 1555: the pointer [vrval] is read from the destination before
       the switch, whatever the type; only the string case uses it *)
    r <- read_dest rval ;;
    match ty with
    | SHIM_TYPE_BOOL =>
        val <- deref v ;;
        write_dest rval (RawBool (BooleanValue val)) ;;; st_ret TRUE
    | SHIM_TYPE_INTEGER =>
        val <- deref v ;;
        write_dest rval (RawInt64 (IntegerValue val)) ;;; st_ret TRUE
    | SHIM_TYPE_UINT32 =>
        val <- deref v ;;
        write_dest rval (RawUint32 (Uint32Value val)) ;;; st_ret TRUE
    | SHIM_TYPE_INT32 =>
        val <- deref v ;;
        write_dest rval (RawInt32 (Int32Value val)) ;;; st_ret TRUE
    | SHIM_TYPE_NUMBER =>
        val <- deref v ;;
        write_dest rval (RawDouble (NumberValue val)) ;;; st_ret TRUE
    | SHIM_TYPE_EXTERNAL =>
        p <- shim_external_value arg ;;
        write_dest rval (RawPtr p) ;;; st_ret TRUE
    | SHIM_TYPE_BUFFER =>
        p <- shim_buffer_value arg ;;
        write_dest rval (RawPtr p) ;;; st_ret TRUE
    | SHIM_TYPE_STRING =>
        val <- deref v ;;
        match r with
        | RawVal vrval =>
            set_handle vrval (Some (OBJ_TO_STRING val)) ;;; st_ret TRUE
        | _ => st_fail
        end
    | _ => st_ret FALSE
    end.

Definition shim_unpack_one (args : shim_args_t) (idx : nat)
    (ty : shim_type_t) (rval : nat) : M shim_bool_t :=
  arg <- st_lift (argv args !! idx) ;;
  shim_unpack_type arg ty rval.

(** The variadic tail of [shim_unpack]: destinations and types alternate. *)
Inductive va_item :=
  | VaDest (rval : nat)
  | VaType (ty : shim_type_t).

(** The loop of [shim_unpack]; [fuel] bounds the iterations, and
    [argc args] is always enough. *)
Fixpoint shim_unpack_loop (fuel : nat) (args : shim_args_t) (cur : nat)
    (ctype : shim_type_t) (ap : list va_item) : M shim_bool_t :=
  if bool_decide (ctype <> SHIM_TYPE_UNKNOWN) && (cur <? argc args) then
    match fuel with
    | 0 => st_fail
    | S fuel' =>
        match ap with
        | VaDest rval :: ap1 =>
            ok <- shim_unpack_one args cur ctype rval ;;
            if negb ok then
              shim_throw_type_error "Argument %d not of type %s"
                [FmtInt (Z.of_nat cur); FmtStr (shim_type_str ctype)] ;;;
              st_ret FALSE
            else
              match ap1 with
              | VaType ctype' :: ap2 =>
                  shim_unpack_loop fuel' args (S cur) ctype' ap2
              | _ => st_fail
              end
        | _ => st_fail
        end
    end
  else st_ret TRUE.

Definition shim_unpack (args : shim_args_t) (ty : shim_type_t)
    (ap : list va_item) : M shim_bool_t :=
  shim_unpack_loop (argc args) args 0 ty ap.

(** ** The trampoline (shim.cc 205-304) *)

(** SHIM_PROLOGUE (lines 70-78) opens a fresh TryCatch: nothing is caught
    yet. *)
Definition SHIM_PROLOGUE : M unit :=
  fun s => Some (tt, mk_state (heap s) (dests s) None (trace s)).

Definition shim_func : Type := shim_args_t -> M (shim_bool_t * shim_args_t).

Record shim_fholder_s := mk_holder {
  cfunc : shim_func;
  holder_data : Z;
}.

(** The runtime's call record: receiver, arguments, and the holder
    reached through [args.Data()]. *)
Record call_info := mk_call {
  This : Value;
  Args : list Value;
  Data : shim_fholder_s;
}.

(** What the runtime observes when the trampoline exits. *)
Record outcome := mk_outcome {
  rethrown : option Value;   (* the exception passed to ReThrow *)
  returned : option Value;   (* the value given to the native return path *)
}.

Fixpoint Static_alloc_argv (js : list Value) : M (list loc) :=
  match js with
  | [] => st_ret []
  | a :: js' =>
      p <- shim_val_alloc a SHIM_TYPE_UNKNOWN ;;
      ps <- Static_alloc_argv js' ;;
      st_ret (p :: ps)
  end.

(** Lines 231-247: the frame. *)
Definition Static_build (args : call_info) : M shim_args_t :=
  this <- shim_val_alloc (This args) SHIM_TYPE_UNKNOWN ;;
  av <- Static_alloc_argv (Args args) ;;
  st_ret (mk_args (length (Args args)) av (Some shim_undefined) this
                  (holder_data (Data args))).

(** Lines 256-274: the value to return, with the assert on it. *)
Definition Static_collect (sargs : shim_args_t) : M Value :=
  match ret sargs with
  | Some r =>
      v <- load r ;;
      match type v with
      | SHIM_TYPE_UNDEFINED => st_ret Undefined
      | SHIM_TYPE_NULL => st_ret Null
      | _ => st_lift (handle v)
      end
  | None => st_ret Null
  end.

Fixpoint Static_release_argv (sargs : shim_args_t) (idxs : list nat)
  : M unit :=
  match idxs with
  | [] => st_ret tt
  | i :: idxs' =>
      p <- st_lift (argv sargs !! i) ;;
      shim_value_release (Some p) ;;;
      Static_release_argv sargs idxs'
  end.

(** Lines 276-283: the release of the frame. *)
Definition Static_release (sargs : shim_args_t) : M unit :=
  Static_release_argv sargs (seq 0 (argc sargs)) ;;;
  shim_value_release (Some (self sargs)).

(** Lines 287-303: both variants of the exit, selected by
    NODE_VERSION_AT_LEAST(0, 11, 3). *)
Definition Static_exit (at_least_0_11_3 : bool) (v : Value) : M outcome :=
  fun s =>
    match trycatch s with
    | Some exc =>
        Some (mk_outcome (Some exc)
                (if at_least_0_11_3 then None else Some exc), s)
    | None => Some (mk_outcome None (Some v), s)
    end.

Definition Static (at_least_0_11_3 : bool) (args : call_info) : M outcome :=
  SHIM_PROLOGUE ;;;
  sargs <- Static_build args ;;
  r <- cfunc (Data args) sargs ;;
  let sargs' := snd r in
  v <- Static_collect sargs' ;;
  Static_release sargs' ;;;
  Static_exit at_least_0_11_3 v.

(** ** Observations on states and traces, used in the statements *)

Definition is_test (e : event) : bool :=
  match e with EvTest _ _ => true | _ => false end.

Definition is_release_of (p : loc) (e : event) : bool :=
  match e with EvRelease (Some q) => Nat.eqb p q | _ => false end.

Definition is_release (e : event) : bool :=
  match e with EvRelease _ => true | _ => false end.

Definition is_free_of (p : loc) (e : event) : bool :=
  match e with EvFree q => Nat.eqb p q | _ => false end.

Fixpoint count (f : event -> bool) (tr : list event) : nat :=
  match tr with
  | [] => 0
  | e :: tr' => (if f e then 1 else 0) + count f tr'
  end.

(** The cell at [p] is allocated and holds [v]. *)
Definition live (s : state) (p : loc) (v : shim_val_t) : Prop :=
  heap s !! p = Some (Some v).

(** A tag under which [shim_value_release] does not free. *)
Definition sentinel_tag (ty : shim_type_t) : bool :=
  bool_decide (ty = SHIM_TYPE_NULL) || bool_decide (ty = SHIM_TYPE_UNDEFINED).

Definition with_trace (s : state) (tr : list event) : state :=
  mk_state (heap s) (dests s) (trycatch s) tr.

Definition with_exception (s : state) (exc : option Value) : state :=
  mk_state (heap s) (dests s) exc (trace s).

Definition with_heap (s : state) (h : list (option shim_val_t)) : state :=
  mk_state h (dests s) (trycatch s) (trace s).

(** What one [shim_value_release] of an allocated cell records, given
    the heap it runs on: the call, and the free unless the tag is
    undefined or null. *)
Definition release_events (h : list (option shim_val_t)) (p : loc)
  : list event :=
  EvRelease (Some p) ::
  match h !! p with
  | Some (Some v) => if sentinel_tag (type v) then [] else [EvFree p]
  | _ => []
  end.

(** Releasing a list of pointers, one after the other. *)
Fixpoint release_all (ps : list loc) : M unit :=
  match ps with
  | [] => st_ret tt
  | p :: ps' => shim_value_release (Some p) ;;; release_all ps'
  end.

(** The callback returned with the frame it was given: the API has no
    setter for [argc], [argv] or [self], and the cells of the frame are
    still allocated. *)
Definition callback_kept_frame (sargs sargs' : shim_args_t) (s2 : state)
  : Prop :=
  argc sargs' = argc sargs /\ argv sargs' = argv sargs /\
  self sargs' = self sargs /\
  Forall (fun p => exists v, live s2 p v) (argv sargs ++ [self sargs]).

(** The variadic encoding of a list of (type, destination) pairs: the
    first type is the named parameter, the rest alternates, and
    SHIM_TYPE_UNKNOWN ends the list. *)
Definition head_type (pairs : list (shim_type_t * nat)) : shim_type_t :=
  match pairs with
  | [] => SHIM_TYPE_UNKNOWN
  | (t, _) :: _ => t
  end.

Fixpoint va_tail (pairs : list (shim_type_t * nat)) : list va_item :=
  match pairs with
  | [] => []
  | (_, d) :: rest => VaDest d :: VaType (head_type rest) :: va_tail rest
  end.

(** [unpacked args cur pairs s s']: the arguments [cur], [cur+1], ... were
    each unpacked with success by [shim_unpack_one], in order, for the
    pairs of [pairs], taking [s] to [s']. *)
Inductive unpacked (args : shim_args_t)
  : nat -> list (shim_type_t * nat) -> state -> state -> Prop :=
  | unpacked_nil cur s : unpacked args cur [] s s
  | unpacked_cons cur t d rest s s1 s2 :
      shim_unpack_one args cur t d s = Some (TRUE, s1) ->
      unpacked args (S cur) rest s1 s2 ->
      unpacked args cur ((t, d) :: rest) s s2.



(** The raw datum [shim_unpack_type] stores for a value of a raw type. *)
Definition extracted (ty : shim_type_t) (val : Value) : option raw :=
  match ty with
  | SHIM_TYPE_BOOL => Some (RawBool (BooleanValue val))
  | SHIM_TYPE_INTEGER => Some (RawInt64 (IntegerValue val))
  | SHIM_TYPE_UINT32 => Some (RawUint32 (Uint32Value val))
  | SHIM_TYPE_INT32 => Some (RawInt32 (Int32Value val))
  | SHIM_TYPE_NUMBER => Some (RawDouble (NumberValue val))
  | SHIM_TYPE_EXTERNAL => Some (RawPtr (External_Unwrap val))
  | SHIM_TYPE_BUFFER => Some (RawPtr (Buffer_Data val))
  | _ => None
  end.

End Shim.

Notation "x <- m ;; k" := (st_bind m (fun x => k))
  (at level 100, m at next level, right associativity).
Notation "m ;;; k" := (st_bind m (fun _ => k))
  (at level 100, right associativity).

(** ** A small runtime to run the shim on concrete inputs *)

Module Toy.

Inductive value :=
  | VUndefined
  | VNull
  | VBool (b : bool)
  | VNumber (z : Z)
  | VString (s : string)
  | VObject (id : nat)
  | VArray (id : nat)
  | VFunction (id : nat)
  | VExternal (p : Z)
  | VDate (ms : Z)
  | VBuffer (addr : Z)
  | VError (kind : shim_err_type) (msg : string).

Definition is_object (v : value) : bool :=
  match v with
  | VObject _ | VArray _ | VFunction _ | VDate _ | VBuffer _ | VError _ _ => true
  | _ => false
  end.

Definition to_string (v : value) : value :=
  match v with
  | VUndefined => VString "undefined"
  | VNull => VString "null"
  | VBool true => VString "true"
  | VBool false => VString "false"
  | VNumber z => VString (decimal z)
  | VString s => VString s
  | VError _ msg => VString msg
  | _ => VString "[object Object]"
  end.

Definition to_number (v : value) : value :=
  match v with
  | VNumber z => VNumber z
  | VBool true => VNumber 1
  | VDate ms => VNumber ms
  | _ => VNumber 0
  end.

Definition to_boolean (v : value) : value :=
  match v with
  | VUndefined | VNull | VBool false | VNumber Z0 | VString EmptyString => VBool false
  | _ => VBool true
  end.

Definition number_of (v : value) : Z :=
  match to_number v with VNumber z => z | _ => 0%Z end.

Definition message_of (v : value) : string :=
  match v with VString s => s | _ => EmptyString end.

#[global] Instance runtime : Runtime := {|
  Value := value;
  Double := Z;
  Undefined := VUndefined;
  Null := VNull;
  IsObject := is_object;
  IsString := fun v => match v with VString _ => true | _ => false end;
  IsNumber := fun v => match v with VNumber _ => true | _ => false end;
  IsInt32 := fun v =>
    match v with
    | VNumber z => ((-2147483648 <=? z) && (z <? 2147483648))%Z
    | _ => false
    end;
  IsUint32 := fun v =>
    match v with
    | VNumber z => ((0 <=? z) && (z <? 4294967296))%Z
    | _ => false
    end;
  IsArray := fun v => match v with VArray _ => true | _ => false end;
  IsBoolean := fun v => match v with VBool _ => true | _ => false end;
  IsUndefined := fun v => match v with VUndefined => true | _ => false end;
  IsNull := fun v => match v with VNull => true | _ => false end;
  IsExternal := fun v => match v with VExternal _ => true | _ => false end;
  IsDate := fun v => match v with VDate _ => true | _ => false end;
  IsFunction := fun v => match v with VFunction _ => true | _ => false end;
  Buffer_HasInstance := fun v => match v with VBuffer _ => true | _ => false end;
  ToBoolean := to_boolean;
  ToObject := fun v => if is_object v then v else VObject 0;
  ToString := to_string;
  ToInt32 := fun v => VNumber ((number_of v + 2147483648) mod 4294967296 - 2147483648);
  ToUint32 := fun v => VNumber (number_of v mod 4294967296);
  ToNumber := to_number;
  BooleanValue := fun v => match to_boolean v with VBool b => b | _ => false end;
  IntegerValue := number_of;
  Uint32Value := fun v => (number_of v mod 4294967296)%Z;
  Int32Value := fun v => ((number_of v + 2147483648) mod 4294967296 - 2147483648)%Z;
  NumberValue := number_of;
  External_Unwrap := fun v => match v with VExternal p => p | _ => 0%Z end;
  Buffer_Data := fun v => match v with VBuffer a => a | _ => 0%Z end;
  String_New := VString;
  Exception_Error := fun m => VError SHIM_ERR_ERROR (message_of m);
  Exception_TypeError := fun m => VError SHIM_ERR_TYPE (message_of m);
  Exception_RangeError := fun m => VError SHIM_ERR_RANGE (message_of m);
|}.

(** A callback that does nothing and reports success. *)
Definition cb_noop : shim_func := fun sargs => st_ret (TRUE, sargs).

(** A callback that stores a NULL pointer in the return slot. *)
Definition cb_null_slot : shim_func :=
  fun sargs => st_ret (shim_args_set_rval sargs None).

(** A callback that stores the null sentinel in the return slot. *)
Definition cb_null_sentinel : shim_func :=
  fun sargs => st_ret (shim_args_set_rval sargs (Some shim_null)).

(** A callback that raises an error, installs the number 7 as its return
    value and reports success. *)
Definition cb_throw_and_return : shim_func :=
  fun sargs =>
    err <- shim_error_new "boom %d" [FmtInt 7] ;;
    shim_exception_set err ;;;
    num <- shim_val_alloc (VNumber 7) SHIM_TYPE_UNKNOWN ;;
    st_ret (shim_args_set_rval sargs (Some num)).

(** A callback that classifies its second argument as undefined, raises
    an error and reports failure. *)
Definition cb_classify_fail : shim_func :=
  fun sargs =>
    arg <- shim_args_get sargs 1 ;;
    _ <- shim_value_is arg SHIM_TYPE_UNDEFINED ;;
    shim_throw_error "failed" [] ;;;
    st_ret (FALSE, sargs).

(** A call with the arguments 42 and undefined. *)
Definition call_with (cb : shim_func) : call_info :=
  mk_call (VObject 1) [VNumber 42; VUndefined] (mk_holder cb 0).

(** A frame cell wrapping the number 42, not yet classified. *)
Definition number_cell_state : state :=
  mk_state [Some shim__undefined; Some shim__null;
            Some (mk_val (Some (VNumber 42)) SHIM_TYPE_UNKNOWN)] [] None [].

(** A frame of one argument, an object, and two free destinations. *)
Definition object_frame : shim_args_t := mk_args 1 [2] (Some 0) 3 0.

Definition object_frame_state : state :=
  mk_state [Some shim__undefined; Some shim__null;
            Some (mk_val (Some (VObject 7)) SHIM_TYPE_UNKNOWN);
            Some (mk_val (Some (VObject 1)) SHIM_TYPE_UNKNOWN)]
           [RawUninit; RawUninit] None [].

(** A frame with the arguments 42 and an object; the second destination
    points to a value that is to receive a string handle. *)
Definition number_object_frame : shim_args_t := mk_args 2 [2; 3] (Some 0) 4 0.

Definition number_object_state : state :=
  mk_state [Some shim__undefined; Some shim__null;
            Some (mk_val (Some (VNumber 42)) SHIM_TYPE_UNKNOWN);
            Some (mk_val (Some (VObject 7)) SHIM_TYPE_UNKNOWN);
            Some (mk_val (Some (VObject 1)) SHIM_TYPE_UNKNOWN);
            Some (mk_val None SHIM_TYPE_UNKNOWN)]
           [RawUninit; RawVal 5] None [].

(** The frame and the state the trampoline builds for [call_with] from
    the initial state. *)
Definition built_frame : shim_args_t := mk_args 2 [3; 4] (Some 0) 2 0.

Definition built_state : state :=
  mk_state [Some shim__undefined; Some shim__null;
            Some (mk_val (Some (VObject 1)) SHIM_TYPE_UNKNOWN);
            Some (mk_val (Some (VNumber 42)) SHIM_TYPE_UNKNOWN);
            Some (mk_val (Some VUndefined) SHIM_TYPE_UNKNOWN)]
           [] None [].

(** What [cb_throw_and_return] leaves: the error and the number 7 in
    two new cells, the error pending, the return slot on the number. *)
Definition thrown_frame : shim_args_t := mk_args 2 [3; 4] (Some 6) 2 0.

Definition thrown_state : state :=
  mk_state [Some shim__undefined; Some shim__null;
            Some (mk_val (Some (VObject 1)) SHIM_TYPE_UNKNOWN);
            Some (mk_val (Some (VNumber 42)) SHIM_TYPE_UNKNOWN);
            Some (mk_val (Some VUndefined) SHIM_TYPE_UNKNOWN);
            Some (mk_val (Some (VError SHIM_ERR_ERROR "boom 7")) SHIM_TYPE_UNKNOWN);
            Some (mk_val (Some (VNumber 7)) SHIM_TYPE_UNKNOWN)]
           [] (Some (VError SHIM_ERR_ERROR "boom 7")) [].

(** What [cb_classify_fail] leaves: the second argument tagged
    undefined, an error pending. *)
Definition classified_state : state :=
  mk_state [Some shim__undefined; Some shim__null;
            Some (mk_val (Some (VObject 1)) SHIM_TYPE_UNKNOWN);
            Some (mk_val (Some (VNumber 42)) SHIM_TYPE_UNKNOWN);
            Some (mk_val (Some VUndefined) SHIM_TYPE_UNDEFINED)]
           [] (Some (VError SHIM_ERR_ERROR "failed"))
           [EvTest VUndefined SHIM_TYPE_UNDEFINED].

(** A frame of one argument, the number 42, and two free destinations. *)
Definition number_frame : shim_args_t := mk_args 1 [2] (Some 0) 3 0.

Definition number_frame_state : state :=
  mk_state [Some shim__undefined; Some shim__null;
            Some (mk_val (Some (VNumber 42)) SHIM_TYPE_UNKNOWN);
            Some (mk_val (Some (VObject 1)) SHIM_TYPE_UNKNOWN)]
           [RawUninit; RawUninit] None [].

(** [number_frame_state] after the number was unpacked. *)
Definition number_frame_unpacked : state :=
  mk_state [Some shim__undefined; Some shim__null;
            Some (mk_val (Some (VNumber 42)) SHIM_TYPE_NUMBER);
            Some (mk_val (Some (VObject 1)) SHIM_TYPE_UNKNOWN)]
           [RawDouble 42%Z; RawUninit] None
           [EvTest (VNumber 42) SHIM_TYPE_NUMBER].

(** The variadic list asking for a number, then a string. *)
Definition number_string_pairs : list (shim_type_t * nat) :=
  [(SHIM_TYPE_NUMBER, 0); (SHIM_TYPE_STRING, 1)].

(** [number_object_state] after the number was unpacked into
    destination 0, and then after the string test on the object failed. *)
Definition number_unpacked_state : state :=
  mk_state [Some shim__undefined; Some shim__null;
            Some (mk_val (Some (VNumber 42)) SHIM_TYPE_NUMBER);
            Some (mk_val (Some (VObject 7)) SHIM_TYPE_UNKNOWN);
            Some (mk_val (Some (VObject 1)) SHIM_TYPE_UNKNOWN);
            Some (mk_val None SHIM_TYPE_UNKNOWN)]
           [RawDouble 42%Z; RawVal 5] None
           [EvTest (VNumber 42) SHIM_TYPE_NUMBER].


Definition number_cell : shim_val_t :=
  mk_val (Some (VNumber 42)) SHIM_TYPE_UNKNOWN.

Definition object_cell : shim_val_t :=
  mk_val (Some (VObject 7)) SHIM_TYPE_UNKNOWN.

Definition empty_cell : shim_val_t := mk_val None SHIM_TYPE_UNKNOWN.

(** A message of 600 bytes, longer than the error buffer. *)
Definition long_message : string :=
  string_of_list_ascii (repeat "a"%char 600).

End Toy.

(** * More of the shim: call-out arguments, clones and persistents,
    object properties, function tables and module set-up *)

(** What the shim asks of JavaScript objects.  These calls run inside the
    runtime; the shim only sees their results, so they are functions of
    the handles they are given.  [Function_New] stands for
    [FunctionTemplate::New(Static, External::New(holder))->GetFunction()]
    followed by [SetName]. *)
Class ObjectRuntime (RT : Runtime) := {
  String_NewSymbol : string -> Value;
  Object_Get : Value -> Value -> Value;
  Object_Get_index : Value -> Z -> Value;
  Object_Set : Value -> Value -> Value -> bool;
  Function_New : @shim_fholder_s RT -> string -> Value;
}.

Section ShimObjects.
Context `{RT : Runtime} {ORT : ObjectRuntime RT}.

(** ** shim_vals_to_handles (shim.cc 119-148) *)

(** The body of the loop: the handle passed to the runtime for one
    entry of [argv]; a NULL entry and the two sentinel tags are replaced
    by the runtime's own values, and any other value gives its handle,
    empty or not. *)
Definition shim_vals_to_handle (arg : option loc) : M (option Value) :=
  match arg with
  | None => st_ret (Some Null)
  | Some p =>
      v <- load p ;;
      match type v with
      | SHIM_TYPE_UNDEFINED => st_ret (Some Undefined)
      | SHIM_TYPE_NULL => st_ret (Some Null)
      | _ => st_ret (handle v)
      end
  end.

Fixpoint shim_vals_to_handles_loop (argv : list (option loc))
    (idxs : list nat) : M (list (option Value)) :=
  match idxs with
  | [] => st_ret []
  | i :: idxs' =>
      arg <- st_lift (argv !! i) ;;
      h <- shim_vals_to_handle arg ;;
      hs <- shim_vals_to_handles_loop argv idxs' ;;
      st_ret (h :: hs)
  end.

Definition shim_vals_to_handles (argc : nat) (argv : list (option loc))
  : M (list (option Value)) :=
  shim_vals_to_handles_loop argv (seq 0 argc).

(** ** Clones and persistents (shim.cc 582-587, 804-826) *)

(** [Local<Value>::New] and [Persistent<Value>::New] give a new handle to
    the same value, and an empty handle for an empty one. *)
Definition shim_obj_clone (src : loc) : M loc :=
  v <- load src ;;
  malloc (mk_val (handle v) SHIM_TYPE_UNKNOWN).

Definition shim_persistent_new (val : loc) : M loc :=
  v <- load val ;;
  malloc (mk_val (handle v) SHIM_TYPE_UNKNOWN).

(** [Dispose] acts on the runtime's handle table only; what the shim
    itself does is the [free]. *)
Definition shim_persistent_dispose (val : loc) : M unit :=
  _ <- load val ;;
  free val.

(** ** Object properties (shim.cc 643-649, 734-762, 1250-1255) *)

Definition shim_obj_set_prop_name (obj : loc) (name : string) (val : loc)
  : M shim_bool_t :=
  o <- load obj ;;
  jsobj <- deref o ;;
  v <- load val ;;
  jsval <- deref v ;;
  st_ret (Object_Set (OBJ_TO_OBJECT jsobj) (String_NewSymbol name) jsval).

Definition shim_obj_get_prop_name (obj : loc) (name : string) (rval : loc)
  : M shim_bool_t :=
  o <- load obj ;;
  jsobj <- deref o ;;
  set_handle rval
    (Some (Object_Get (OBJ_TO_OBJECT jsobj) (String_NewSymbol name))) ;;;
  set_type rval SHIM_TYPE_UNKNOWN ;;;
  st_ret TRUE.

Definition shim_obj_get_prop_id (obj : loc) (idx : Z) (rval : loc)
  : M shim_bool_t :=
  o <- load obj ;;
  jsobj <- deref o ;;
  set_handle rval (Some (Object_Get_index (OBJ_TO_OBJECT jsobj) idx)) ;;;
  set_type rval SHIM_TYPE_UNKNOWN ;;;
  st_ret TRUE.

Definition shim_array_get (arr : loc) (idx : Z) (rval : loc)
  : M shim_bool_t :=
  a <- load arr ;;
  jsarr <- deref a ;;
  set_handle rval (Some (Object_Get_index (OBJ_TO_ARRAY jsarr) idx)) ;;;
  st_ret TRUE.

(** ** Function tables (shim.cc 707-725, 885-899) *)

(** The holder is allocated with [new] and never freed by the shim; it
    is not a cell of the heap of tagged values. *)
Definition shim_func_new (cfunc : shim_func) (nargs : nat) (flags : Z)
    (name : string) (hint : Z) : M loc :=
  shim_val_alloc (Function_New (mk_holder cfunc hint) name)
                 SHIM_TYPE_UNKNOWN.

Record shim_fspec_t := mk_fspec {
  fs_name : option string;   (* None is the NULL name that ends the table *)
  fs_cfunc : shim_func;
  fs_nargs : nat;
  fs_flags : Z;
  fs_data : Z;
}.

(** The loop of [shim_obj_set_funcs]; reading past the end of the table
    is undefined, and [length funcs] iterations are always enough. *)
Fixpoint shim_obj_set_funcs_loop (fuel : nat) (recv : loc)
    (funcs : list shim_fspec_t) (i : nat) : M shim_bool_t :=
  cur <- st_lift (funcs !! i) ;;
  match fs_name cur with
  | None => st_ret TRUE
  | Some name =>
      match fuel with
      | 0 => st_fail
      | S fuel' =>
          func <- shim_func_new (fs_cfunc cur) (fs_nargs cur) (fs_flags cur)
                    name (fs_data cur) ;;
          ok <- shim_obj_set_prop_name recv name func ;;
          if negb ok then st_ret FALSE
          else
            shim_value_release (Some func) ;;;
            shim_obj_set_funcs_loop fuel' recv funcs (S i)
      end
  end.

Definition shim_obj_set_funcs (recv : loc) (funcs : list shim_fspec_t)
  : M shim_bool_t :=
  shim_obj_set_funcs_loop (length funcs) recv funcs 0.

(** ** Module set-up (shim.cc 309-334) *)

(** [sexport] and [smodule] are automatic variables whose [type] field is
    never set: they are cells with tags the caller of the model chooses,
    gone when the function returns.  [shim_initialize] is the module's
    own entry point.  The creation of the [hidden_private] symbol, which
    concerns the runtime only, is left out. *)
Definition stack_pop (p : loc) : M unit :=
  fun s => match heap s !! p with
           | Some (Some _) =>
               Some (tt, mk_state (<[p := None]> (heap s)) (dests s)
                                  (trycatch s) (trace s))
           | _ => None
           end.

Definition shim_module_initialize
    (shim_initialize : loc -> loc -> M shim_bool_t)
    (exports module : Value) (t_export t_module : shim_type_t) : M unit :=
  SHIM_PROLOGUE ;;;
  sexport <- malloc (mk_val (Some exports) t_export) ;;
  smodule <- malloc (mk_val (Some module) t_module) ;;
  ok <- shim_initialize sexport smodule ;;
  (if negb ok then
     caught <- shim_exception_pending ;;
     if negb caught then shim_throw_error "Failed to initialize module" []
     else st_ret tt
   else st_ret tt) ;;;
  stack_pop smodule ;;;
  stack_pop sexport.

(** ** Further observations used in the statements *)

(** The three calls [shim_value_is p t1], [p t2], [p t1] in a row. *)
Definition shim_value_is_alternating (p : loc) (t1 t2 : shim_type_t)
  : M (shim_bool_t * shim_bool_t * shim_bool_t) :=
  a <- shim_value_is p t1 ;;
  b <- shim_value_is p t2 ;;
  c <- shim_value_is p t1 ;;
  st_ret (a, b, c).

(** The tags for which [shim_unpack_type] returns FALSE whatever the
    argument is. *)
Definition never_unpacked (ty : shim_type_t) : bool :=
  match ty with
  | SHIM_TYPE_UNDEFINED | SHIM_TYPE_NULL | SHIM_TYPE_DATE
  | SHIM_TYPE_ARRAY | SHIM_TYPE_OBJECT | SHIM_TYPE_FUNCTION => true
  | _ => false
  end.

(** The handle [shim_vals_to_handles] passes for one entry of [argv],
    read off a state; [None] when the entry points to no allocated
    cell. *)
Definition handle_passed (s : state) (arg : option loc)
  : option (option Value) :=
  match arg with
  | None => Some (Some Null)
  | Some p =>
      match heap s !! p with
      | Some (Some v) =>
          Some match type v with
               | SHIM_TYPE_UNDEFINED => Some Undefined
               | SHIM_TYPE_NULL => Some Null
               | _ => handle v
               end
      | _ => None
      end
  end.

(** The function value [shim_obj_set_funcs] makes for an entry of the
    table, and whether the runtime accepts it as a property of the
    receiver. *)
Definition fspec_function (cur : shim_fspec_t) (name : string) : Value :=
  Function_New (mk_holder (fs_cfunc cur) (fs_data cur)) name.

Definition fspec_accepted (jsrecv : Value) (cur : shim_fspec_t) : bool :=
  match fs_name cur with
  | Some name =>
      Object_Set (OBJ_TO_OBJECT jsrecv) (String_NewSymbol name)
                 (fspec_function cur name)
  | None => false
  end.

(** The cell at [p] has been freed. *)
Definition freed (s : state) (p : loc) : Prop := heap s !! p = Some None.

End ShimObjects.

(** ** Objects, tables and states to run the further functions on *)

Module ToyObjects.
Import Toy.

(** Every array holds the string "elt" at every index; a property named
    "frozen" cannot be set, and only objects take properties. *)
#[global] Instance object_runtime : ObjectRuntime runtime := {|
  String_NewSymbol := VString;
  Object_Get := fun obj key =>
    match obj with VObject id => VNumber (Z.of_nat id) | _ => VUndefined end;
  Object_Get_index := fun obj idx =>
    match obj with VArray _ => VString "elt" | _ => VUndefined end;
  Object_Set := fun obj key val =>
    match key with
    | VString name => is_object obj && negb (String.eqb name "frozen")
    | _ => false
    end;
  Function_New := fun holder name => VFunction (String.length name);
|}.

(** A callback that does nothing and reports failure. *)
Definition cb_noop_fail : shim_func := fun sargs => st_ret (FALSE, sargs).

(** A callback that returns the number 7. *)
Definition cb_return_seven : shim_func :=
  fun sargs =>
    num <- shim_val_alloc (VNumber 7) SHIM_TYPE_UNKNOWN ;;
    st_ret (shim_args_set_rval sargs (Some num)).

Definition seven_cell : shim_val_t := mk_val (Some (VNumber 7)) SHIM_TYPE_UNKNOWN.

Definition returned_frame : shim_args_t := mk_args 2 [3; 4] (Some 5) 2 0.

Definition returned_state : state :=
  mk_state [Some shim__undefined; Some shim__null;
            Some (mk_val (Some (VObject 1)) SHIM_TYPE_UNKNOWN);
            Some (mk_val (Some (VNumber 42)) SHIM_TYPE_UNKNOWN);
            Some (mk_val (Some VUndefined) SHIM_TYPE_UNKNOWN);
            Some seven_cell]
           [] None [].

Definition undefined_cell : shim_val_t :=
  mk_val (Some VUndefined) SHIM_TYPE_UNKNOWN.

Definition undefined_classified_cell : shim_val_t :=
  mk_val (Some VUndefined) SHIM_TYPE_UNDEFINED.

(** [number_object_state] after its number was converted into cell 5. *)
Definition number_converted_state : state :=
  mk_state [Some shim__undefined; Some shim__null;
            Some (mk_val (Some (VNumber 42)) SHIM_TYPE_UNKNOWN);
            Some (mk_val (Some (VObject 7)) SHIM_TYPE_UNKNOWN);
            Some (mk_val (Some (VObject 1)) SHIM_TYPE_UNKNOWN);
            Some (mk_val (Some (VNumber 42)) SHIM_TYPE_NUMBER)]
           [RawUninit; RawVal 5] None [].

(** An array, and a destination that was classified as a number
    before. *)
(** [built_state] with one destination for [shim_unpack_type]. *)
Definition built_dest_state : state :=
  mk_state (heap built_state) [RawUninit] None [].

Definition array_cell : shim_val_t := mk_val (Some (VArray 1)) SHIM_TYPE_UNKNOWN.

Definition old_number_cell : shim_val_t :=
  mk_val (Some (VNumber 5)) SHIM_TYPE_NUMBER.

Definition array_state : state :=
  mk_state [Some shim__undefined; Some shim__null;
            Some array_cell; Some old_number_cell] [] None [].

Definition array_fetched_state : state :=
  mk_state [Some shim__undefined; Some shim__null;
            Some array_cell;
            Some (mk_val (Some (VString "elt")) SHIM_TYPE_NUMBER)] [] None [].

(** Tables of functions, ended by an entry with no name. *)
Definition fspec (name : string) : shim_fspec_t :=
  mk_fspec (Some name) cb_noop 0 0 0.

Definition fspec_end : shim_fspec_t := mk_fspec None cb_noop 0 0 0.

Definition good_table : list shim_fspec_t := [fspec "a"; fspec "bc"; fspec_end].

Definition frozen_table : list shim_fspec_t :=
  [fspec "a"; fspec "frozen"; fspec "c"; fspec_end].

Definition receiver_cell : shim_val_t :=
  mk_val (Some (VObject 1)) SHIM_TYPE_UNKNOWN.

(** A module entry point that fails without raising. *)
Definition init_fail : loc -> loc -> M shim_bool_t :=
  fun _ _ => st_ret FALSE.

Definition module_state : state :=
  mk_state [Some shim__undefined; Some shim__null;
            Some (mk_val (Some (VObject 1)) SHIM_TYPE_UNKNOWN);
            Some (mk_val (Some (VObject 2)) SHIM_TYPE_UNKNOWN)]
           [] None [].

End ToyObjects.

(** * Properties *)

Section Properties.
Context `{RT : Runtime}.

Lemma count_app f tr1 tr2 : count f (tr1 ++ tr2) = count f tr1 + count f tr2.
Proof. induction tr1 as [|e tr1 IH]; simpl; [done|]. rewrite IH. lia. Qed.

Lemma state_eta s : mk_state (heap s) (dests s) (trycatch s) (trace s) = s.
Proof. by destruct s. Qed.

Lemma load_live s p v : live s p v -> load p s = Some (v, s).
Proof. unfold live, load. by intros ->. Qed.

Lemma store_live s p v w :
  live s p v -> store p w s = Some (tt, with_heap s (<[p := Some w]> (heap s))).
Proof. unfold live, store. by intros ->. Qed.

Lemma set_type_live s p v ty :
  live s p v ->
  set_type p ty s
  = Some (tt, with_heap s (<[p := Some (mk_val (handle v) ty)]> (heap s))).
Proof.
  intros Hl. unfold set_type, st_bind. rewrite (load_live _ _ _ Hl).
  by apply store_live with v.
Qed.

Lemma set_handle_live s p v h :
  live s p v ->
  set_handle p h s
  = Some (tt, with_heap s (<[p := Some (mk_val h (type v))]> (heap s))).
Proof.
  intros Hl. unfold set_handle, st_bind. rewrite (load_live _ _ _ Hl).
  by apply store_live with v.
Qed.

Lemma live_insert_eq s p v w :
  live s p v -> live (with_heap s (<[p := Some w]> (heap s))) p w.
Proof.
  unfold live. simpl. intros Hl. apply list_lookup_insert_eq.
  by eapply lookup_lt_Some.
Qed.

Lemma live_insert_ne s p q v w :
  p <> q -> live s q v -> live (with_heap s (<[p := Some w]> (heap s))) q v.
Proof. unfold live. simpl. intros Hne Hl. by rewrite list_lookup_insert_ne. Qed.

(** What one call of [shim_value_is] does on an allocated cell. *)
Lemma shim_value_is_eq s p v ty :
  live s p v ->
  shim_value_is p ty s =
    if decide (type v = ty) then Some (TRUE, s)
    else match shim_value_is_test ty with
         | None => Some (FALSE, s)
         | Some test =>
             match handle v with
             | None => None
             | Some obj =>
                 Some (test obj,
                       mk_state
                         (if test obj
                          then <[p := Some (mk_val (handle v) ty)]> (heap s)
                          else heap s)
                         (dests s) (trycatch s) (trace s ++ [EvTest obj ty]))
             end
         end.
Proof.
  intros Hl. unfold shim_value_is, st_bind. rewrite (load_live _ _ _ Hl).
  destruct (decide (type v = ty)) as [|Hne]; [done|].
  destruct (shim_value_is_test ty) as [test|]; [|done].
  unfold deref, st_lift. destruct (handle v) as [obj|] eqn:Hh; [|done].
  simpl. destruct (test obj) eqn:Ht.
  - unfold set_type, st_bind, load, store, st_ret. simpl.
    unfold live in Hl. rewrite Hl. simpl. rewrite Hl. simpl. by rewrite Hh.
  - done.
Qed.

(** ** Tag memoization *)

(** C4 (as amended): two calls of [shim_value_is] in a row on the same
    value and type give the same answer.  A cached tag equal to the type
    answers TRUE with no test and no mutation; a test that succeeds caches
    the type, so the second call takes the cached path and one test is
    made in all; a test that fails caches nothing, so the second call makes
    the test again (two tests), except for SHIM_TYPE_UNKNOWN, which has no
    test. *)
Theorem shim_value_is_twice s p v ty :
  live s p v ->
  (type v = ty \/ ty = SHIM_TYPE_UNKNOWN \/ is_Some (handle v)) ->
  exists b s1 s2,
    shim_value_is p ty s = Some (b, s1) /\
    shim_value_is p ty s1 = Some (b, s2) /\
    (type v = ty -> b = TRUE /\ s1 = s /\ s2 = s) /\
    (b = TRUE ->
       s2 = s1 /\ live s1 p (mk_val (handle v) ty) /\
       count is_test (trace s2) <= count is_test (trace s) + 1) /\
    (b = FALSE ->
       heap s2 = heap s /\
       count is_test (trace s2)
       = count is_test (trace s)
         + match shim_value_is_test ty with Some _ => 2 | None => 0 end).
Proof.
  intros Hl Hok. rewrite (shim_value_is_eq s p v ty Hl).
  destruct (decide (type v = ty)) as [Heq|Hne].
  - exists TRUE, s, s. rewrite (shim_value_is_eq s p v ty Hl).
    rewrite decide_True by done. repeat split; try done.
    + destruct v as [h t]; simpl in *; by subst.
    + lia.
  - destruct (shim_value_is_test ty) as [test|] eqn:Htest.
    + destruct Hok as [? | [-> | [obj Hobj]]]; [done|done|].
      rewrite Hobj. destruct (test obj) eqn:Hres.
      * set (s1 := mk_state _ _ _ _).
        assert (live s1 p (mk_val (Some obj) ty)) as Hl1.
        { unfold live, s1; simpl. apply list_lookup_insert_eq.
          by eapply lookup_lt_Some. }
        exists TRUE, s1, s1. rewrite (shim_value_is_eq s1 p _ ty Hl1).
        simpl. rewrite decide_True by done.
        repeat split; try done.
        unfold s1; simpl. rewrite count_app. simpl. lia.
      * set (s1 := mk_state _ _ _ _).
        assert (live s1 p v) as Hl1 by done.
        exists FALSE, s1, (with_trace s1 (trace s1 ++ [EvTest obj ty])).
        rewrite (shim_value_is_eq s1 p v ty Hl1).
        rewrite decide_False by done. rewrite Htest, Hobj, Hres.
        repeat split; try done.
        simpl. rewrite !count_app. simpl. lia.
    + exists FALSE, s, s. rewrite (shim_value_is_eq s p v ty Hl).
      rewrite decide_False by done. rewrite Htest.
      repeat split; try done; lia.
Qed.

(** ** Sentinels and release *)

Lemma shim_value_release_skip s p v :
  live s p v -> sentinel_tag (type v) = true ->
  shim_value_release (Some p) s
  = Some (tt, with_trace s (trace s ++ [EvRelease (Some p)])).
Proof.
  intros Hl Htag. unfold shim_value_release, st_bind, log. simpl.
  unfold load. simpl. unfold live in Hl. rewrite Hl.
  unfold sentinel_tag in Htag.
  destruct (bool_decide (type v = SHIM_TYPE_NULL));
    destruct (bool_decide (type v = SHIM_TYPE_UNDEFINED)); simpl in *;
    try done.
Qed.

Lemma release_all_repeat_skip p v n :
  forall s,
    live s p v -> sentinel_tag (type v) = true ->
    release_all (repeat p n) s
    = Some (tt, with_trace s (trace s ++ repeat (EvRelease (Some p)) n)).
Proof.
  induction n as [|n IH]; intros s Hl Htag; simpl.
  - rewrite app_nil_r. unfold with_trace, st_ret. by rewrite state_eta.
  - unfold st_bind. rewrite (shim_value_release_skip s p v Hl Htag).
    rewrite IH by done. unfold with_trace. simpl.
    by rewrite <- app_assoc.
Qed.

(** C8: releasing a value tagged undefined or null frees nothing and
    leaves the heap as it was (only the call itself is recorded), however
    many times it is done, so the sentinels still answer TRUE to
    [shim_value_is] for their own tags. *)
Theorem shim_value_release_sentinel s p v :
  live s p v ->
  sentinel_tag (type v) = true ->
  let s' := with_trace s (trace s ++ [EvRelease (Some p)]) in
  shim_value_release (Some p) s = Some (tt, s') /\
  heap s' = heap s /\
  (forall q, count (is_free_of q) (trace s') = count (is_free_of q) (trace s)) /\
  (forall n,
     release_all (repeat p n) s
     = Some (tt, with_trace s (trace s ++ repeat (EvRelease (Some p)) n))) /\
  (live s shim_undefined shim__undefined ->
   live s' shim_undefined shim__undefined /\
   shim_value_is shim_undefined SHIM_TYPE_UNDEFINED s' = Some (TRUE, s')) /\
  (live s shim_null shim__null ->
   live s' shim_null shim__null /\
   shim_value_is shim_null SHIM_TYPE_NULL s' = Some (TRUE, s')).
Proof.
  intros Hl Htag s'. repeat split; try done.
  - by apply shim_value_release_skip with v.
  - intros q. unfold s'. simpl. rewrite count_app. simpl. lia.
  - intros n. by apply release_all_repeat_skip with v.
  - by rewrite (shim_value_is_eq s' _ shim__undefined).
  - by rewrite (shim_value_is_eq s' _ shim__null).
Qed.

(** ** Unpacking one argument *)

(** A destination that exists can be read. *)
Lemma read_dest_lt s d :
  d < length (dests s) -> exists r, read_dest d s = Some (r, s).
Proof.
  intros [r Hr]%lookup_lt_is_Some_2. exists r.
  unfold read_dest, st_lift. by rewrite Hr.
Qed.

(** C6: a request to unpack into an array, object, function or date fails
    whatever the argument is, and writes no destination.  The destination
    has to exist all the same: once the type test has passed, the code
    reads the pointer stored in it before it looks at the requested type
    (line 1555).  Whatever the destination, the answer is never TRUE. *)
Theorem shim_unpack_type_structured s arg v ty rval :
  ty = SHIM_TYPE_ARRAY \/ ty = SHIM_TYPE_OBJECT \/
  ty = SHIM_TYPE_FUNCTION \/ ty = SHIM_TYPE_DATE ->
  live s arg v ->
  (type v = ty \/ is_Some (handle v)) ->
  rval < length (dests s) ->
  (exists s',
     shim_unpack_type arg ty rval s = Some (FALSE, s') /\
     dests s' = dests s) /\
  (forall rval' s', shim_unpack_type arg ty rval' s <> Some (TRUE, s')).
Proof.
  intros Hty Hl Hok Hrval. split.
  - unfold shim_unpack_type, st_bind.
    rewrite (shim_value_is_eq s arg v ty Hl).
    destruct (decide (type v = ty)) as [Heq|Hne].
    + simpl. rewrite (load_live _ _ _ Hl).
      destruct (read_dest_lt s rval Hrval) as [r ->]. exists s.
      destruct Hty as [-> | [-> | [-> | ->]]]; done.
    + destruct Hok as [?|[obj Hobj]]; [done|]. rewrite Hobj.
      assert (exists test, shim_value_is_test ty = Some test) as [test ->].
      { destruct Hty as [-> | [-> | [-> | ->]]]; simpl; eauto. }
      destruct (test obj) eqn:Hres; simpl.
      * set (s1 := mk_state _ _ _ _).
        assert (live s1 arg (mk_val (Some obj) ty)) as Hl1.
        { unfold live, s1; simpl. apply list_lookup_insert_eq.
          by eapply lookup_lt_Some. }
        rewrite (load_live _ _ _ Hl1).
        destruct (read_dest_lt s1 rval Hrval) as [r ->]. exists s1.
        destruct Hty as [-> | [-> | [-> | ->]]]; done.
      * eexists. split; [reflexivity|done].
  - intros rval' s' H. unfold shim_unpack_type in H.
    unfold st_bind in H.
    destruct (shim_value_is arg ty s) as [[[] s1]|]; simpl in H; try done.
    destruct (load arg s1) as [[v1 s2]|]; [|done].
    destruct (read_dest rval' s2) as [[r s3]|]; [|done].
    destruct Hty as [-> | [-> | [-> | ->]]]; done.
Qed.

(** ** The bounded error message *)

Lemma string_length_append s1 s2 :
  String.length (s1 ++ s2)%string = String.length s1 + String.length s2.
Proof. induction s1 as [|c s1 IH]; simpl; [done|]. by rewrite IH. Qed.

Lemma substring_0_length n s : String.length (substring 0 n s) <= n.
Proof.
  revert s. induction n as [|n IH]; intros [|c s]; simpl; try lia.
  specialize (IH s). lia.
Qed.

Lemma substring_0_long n s :
  n <= String.length s -> String.length (substring 0 n s) = n.
Proof.
  revert s. induction n as [|n IH]; intros [|c s]; simpl; try lia.
  intros Hn. rewrite IH; lia.
Qed.

Lemma substring_0_short n s : String.length s <= n -> substring 0 n s = s.
Proof.
  revert s. induction n as [|n IH]; intros [|c s]; simpl; try done; try lia.
  intros Hn. rewrite IH; [done|lia].
Qed.

Lemma c_str_append_nul s t :
  c_str (s ++ String Ascii.zero t)%string = c_str s.
Proof.
  induction s as [|c s IH]; simpl; [done|].
  destruct (Ascii.eqb c Ascii.zero); [done|]. by rewrite IH.
Qed.

Lemma shim_format_error_eq ty msg ap formatted s :
  c_format msg ap = Some formatted ->
  shim_format_error ty msg ap s
  = Some (match ty with
          | SHIM_ERR_ERROR => Exception_Error
          | SHIM_ERR_TYPE => Exception_TypeError
          | SHIM_ERR_RANGE => Exception_RangeError
          end (String_New (c_str (substring 0 511 formatted))), s).
Proof.
  intros Hf. unfold shim_format_error, st_bind, st_lift, st_ret.
  rewrite Hf. unfold SHIM_ERROR_LENGTH, vsnprintf.
  rewrite c_str_append_nul. by destruct ty.
Qed.

(** C9: every error built or thrown by the exception bridge takes its
    message from a buffer of 512 bytes: a formatted message of 512 bytes
    or more is cut to its first 511 bytes (the terminator fills the
    buffer), a shorter one is kept whole, and in both cases the error is
    built and returned or thrown as usual: truncation is not reported. *)
Theorem shim_format_error_bounded ty msg ap formatted s :
  c_format msg ap = Some formatted ->
  let buf := vsnprintf SHIM_ERROR_LENGTH formatted in
  let err :=
    match ty with
    | SHIM_ERR_ERROR => Exception_Error
    | SHIM_ERR_TYPE => Exception_TypeError
    | SHIM_ERR_RANGE => Exception_RangeError
    end (String_New (c_str (substring 0 511 formatted))) in
  String.length buf <= 512 /\
  (512 <= String.length formatted ->
     buf = (substring 0 511 formatted ++ String Ascii.zero EmptyString)%string /\
     String.length buf = 512) /\
  (String.length formatted < 512 ->
     buf = (formatted ++ String Ascii.zero EmptyString)%string) /\
  shim_format_error ty msg ap s = Some (err, s) /\
  match ty with
  | SHIM_ERR_ERROR => shim_throw_error
  | SHIM_ERR_TYPE => shim_throw_type_error
  | SHIM_ERR_RANGE => shim_throw_range_error
  end msg ap s = Some (tt, with_exception s (Some err)) /\
  match ty with
  | SHIM_ERR_ERROR => shim_error_new
  | SHIM_ERR_TYPE => shim_error_type_new
  | SHIM_ERR_RANGE => shim_error_range_new
  end msg ap s
  = Some (length (heap s),
          with_heap s (heap s ++ [Some (mk_val (Some err) SHIM_TYPE_UNKNOWN)])).
Proof.
  intros Hf buf err. unfold buf, SHIM_ERROR_LENGTH, vsnprintf.
  repeat split.
  - rewrite string_length_append. simpl.
    pose proof (substring_0_length 511 formatted). lia.
  - rewrite string_length_append. simpl.
    rewrite substring_0_long; lia.
  - intros Hlt. rewrite substring_0_short; [done|lia].
  - by apply shim_format_error_eq.
  - destruct ty; unfold shim_throw_error, shim_throw_type_error,
      shim_throw_range_error, st_bind;
      by rewrite (shim_format_error_eq _ _ _ _ _ Hf).
  - destruct ty; unfold shim_error_new, shim_error_type_new,
      shim_error_range_new, st_bind;
      by rewrite (shim_format_error_eq _ _ _ _ _ Hf).
Qed.

(** ** Inversion of the monadic primitives *)

Lemma st_bind_inv {A B} (m : M A) (f : A -> M B) s b s' :
  st_bind m f s = Some (b, s') ->
  exists a s1, m s = Some (a, s1) /\ f a s1 = Some (b, s').
Proof.
  unfold st_bind. destruct (m s) as [[a s1]|]; [|done]. eauto.
Qed.

Lemma st_ret_inv {A} (a b : A) s s' :
  st_ret a s = Some (b, s') -> b = a /\ s' = s.
Proof. unfold st_ret. by intros [= -> ->]. Qed.

Lemma st_lift_inv {A} (o : option A) a s s' :
  st_lift o s = Some (a, s') -> o = Some a /\ s' = s.
Proof. unfold st_lift. destruct o; [|done]. by intros [= -> ->]. Qed.

Lemma load_inv p v s s' : load p s = Some (v, s') -> live s p v /\ s' = s.
Proof.
  unfold load, live. destruct (heap s !! p) as [[w|]|]; try done.
  by intros [= -> ->].
Qed.

Lemma store_inv p w u s s' :
  store p w s = Some (u, s') -> s' = with_heap s (<[p := Some w]> (heap s)).
Proof.
  unfold store. destruct (heap s !! p) as [[?|]|]; try done.
  by intros [= _ <-].
Qed.

Lemma set_handle_inv p h u s s' :
  set_handle p h s = Some (u, s') ->
  exists v, live s p v /\
            s' = with_heap s (<[p := Some (mk_val h (type v))]> (heap s)).
Proof.
  unfold set_handle. intros (v & s1 & Hload & Hstore)%st_bind_inv.
  apply load_inv in Hload as [Hl ->]. apply store_inv in Hstore. eauto.
Qed.

Lemma set_type_inv p ty u s s' :
  set_type p ty s = Some (u, s') ->
  exists v, live s p v /\
            s' = with_heap s (<[p := Some (mk_val (handle v) ty)]> (heap s)).
Proof.
  unfold set_type. intros (v & s1 & Hload & Hstore)%st_bind_inv.
  apply load_inv in Hload as [Hl ->]. apply store_inv in Hstore. eauto.
Qed.

Lemma write_dest_inv d r u s s' :
  write_dest d r s = Some (u, s') ->
  d < length (dests s) /\
  s' = mk_state (heap s) (<[d := r]> (dests s)) (trycatch s) (trace s).
Proof.
  unfold write_dest. destruct (decide (d < length (dests s))); [|done].
  by intros [= _ <-].
Qed.

Lemma read_dest_inv d r s s' :
  read_dest d s = Some (r, s') -> dests s !! d = Some r /\ s' = s.
Proof. unfold read_dest. apply st_lift_inv. Qed.

(** Destructs the hypotheses that say a monadic computation returned. *)
Ltac monad_inv :=
  repeat match goal with
    | H : st_bind _ _ _ = Some _ |- _ =>
        apply st_bind_inv in H as (? & ? & ? & H)
    | H : st_ret _ _ = Some _ |- _ => apply st_ret_inv in H as [? ?]; subst
    | H : st_lift _ _ = Some _ |- _ => apply st_lift_inv in H as [? ?]; subst
    | H : deref _ _ = Some _ |- _ => apply st_lift_inv in H as [? ?]; subst
    | H : load _ _ = Some _ |- _ => apply load_inv in H as [? ?]; subst
    | H : write_dest _ _ _ = Some _ |- _ =>
        apply write_dest_inv in H as [? ?]; subst
    | H : read_dest _ _ = Some _ |- _ =>
        apply read_dest_inv in H as [? ?]; subst
    | H : set_handle _ _ _ = Some _ |- _ =>
        apply set_handle_inv in H as (? & ? & ?); subst
    | H : set_type _ _ _ = Some _ |- _ =>
        apply set_type_inv in H as (? & ? & ?); subst
    | H : st_fail _ = Some _ |- _ => discriminate H
    end.

(** What a returning [shim_value_is] leaves behind. *)
Lemma shim_value_is_inv p ty s b s' :
  shim_value_is p ty s = Some (b, s') ->
  exists v,
    live s p v /\
    (b = TRUE -> live s' p (mk_val (handle v) ty)) /\
    (b = FALSE -> heap s' = heap s) /\
    dests s' = dests s /\ trycatch s' = trycatch s.
Proof.
  intros H.
  assert (exists v, live s p v) as [v Hl].
  { unfold shim_value_is in H. apply st_bind_inv in H as (v & ? & Hload & _).
    apply load_inv in Hload as [? _]. eauto. }
  exists v. split; [done|].
  rewrite (shim_value_is_eq s p v ty Hl) in H.
  destruct (decide (type v = ty)) as [Heq|Hne].
  { injection H as <- <-. repeat split; try done.
    intros _. destruct v; simpl in *; by subst. }
  destruct (shim_value_is_test ty) as [test|].
  - destruct (handle v) as [obj|] eqn:Hobj; [|done].
    injection H as <- <-. simpl. repeat split; try done.
    + intros ->. unfold live. simpl. apply list_lookup_insert_eq.
      by eapply lookup_lt_Some.
    + by intros ->.
  - injection H as <- <-. done.
Qed.

Lemma shim_value_is_frame p ty s b s' :
  shim_value_is p ty s = Some (b, s') ->
  dests s' = dests s /\ trycatch s' = trycatch s.
Proof. intros (v & _ & _ & _ & ?)%shim_value_is_inv. done. Qed.


(** No [shim_unpack_type], failed or not, touches the exception. *)
Lemma shim_unpack_type_exception arg ty rval s b s' :
  shim_unpack_type arg ty rval s = Some (b, s') ->
  trycatch s' = trycatch s.
Proof.
  intros H. unfold shim_unpack_type in H.
  apply st_bind_inv in H as (ok & s1 & His & H).
  apply shim_value_is_frame in His as [Hd He].
  destruct ok; simpl in H.
  - apply st_bind_inv in H as (v & s2 & Hload & H).
    apply load_inv in Hload as [Hl ->].
    destruct ty; unfold shim_external_value, shim_buffer_value in H;
      monad_inv; try done;
      repeat match goal with
        | H : context [match ?x with _ => _ end] |- _ =>
            destruct x; monad_inv; try done
        end.
  - by apply st_ret_inv in H as [_ ->].
Qed.


(** ** The loop of shim_unpack *)



Lemma shim_unpack_one_exception args idx ty rval s b s' :
  shim_unpack_one args idx ty rval s = Some (b, s') ->
  trycatch s' = trycatch s.
Proof.
  unfold shim_unpack_one. intros (arg & s1 & Harg & H)%st_bind_inv.
  apply st_lift_inv in Harg as [_ ->].
  by eapply shim_unpack_type_exception.
Qed.


Lemma unpacked_exception args cur pairs s s' :
  unpacked args cur pairs s s' -> trycatch s' = trycatch s.
Proof.
  induction 1 as [|cur t d rest s s1 s2 Hone _ IH]; [done|].
  rewrite IH. by eapply shim_unpack_one_exception.
Qed.

(** The loop returns TRUE once every argument the frame has, from [cur]
    on, was unpacked with success; what the list asks beyond [argc] is not
    looked at. *)
Lemma shim_unpack_loop_all args pairs :
  forall fuel cur s s',
    Forall (fun td => fst td <> SHIM_TYPE_UNKNOWN) pairs ->
    argc args - cur <= fuel ->
    unpacked args cur (take (argc args - cur) pairs) s s' ->
    shim_unpack_loop fuel args cur (head_type pairs) (va_tail pairs) s
    = Some (TRUE, s').
Proof.
  induction pairs as [|[t d] rest IH]; intros fuel cur s s' Hty Hfuel Hun.
  - rewrite take_nil in Hun. inversion Hun; subst.
    destruct fuel; simpl; done.
  - apply Forall_cons in Hty as [Ht Hty]. simpl in Ht.
    destruct (decide (cur < argc args)) as [Hlt|Hge].
    + destruct (argc args - cur) as [|n] eqn:Hn; [lia|].
      destruct fuel as [|fuel]; [lia|].
      simpl in Hun. inversion Hun as [|? ? ? ? ? s1 ? Hone Hrest]; subst.
      simpl. rewrite bool_decide_true by done.
      apply Nat.ltb_lt in Hlt as Hltb. rewrite Hltb. simpl.
      unfold st_bind at 1. rewrite Hone. simpl.
      apply IH; [done|lia|].
      replace (argc args - S cur) with n by lia. done.
    + replace (argc args - cur) with 0 in Hun by lia.
      rewrite take_0 in Hun. inversion Hun; subst.
      assert ((cur <? argc args) = false) as Hgeb by (apply Nat.ltb_ge; lia).
      destruct fuel; simpl; rewrite Hgeb, andb_false_r; done.
Qed.





(** When the argument cannot satisfy the type: its cached tag differs and
    the runtime test for the type, if there is one, answers no. *)
Lemma shim_unpack_type_refuses s arg v obj ty rval :
  live s arg v -> handle v = Some obj -> type v <> ty ->
  (forall test, shim_value_is_test ty = Some test -> test obj = false) ->
  exists s',
    shim_unpack_type arg ty rval s = Some (FALSE, s') /\
    heap s' = heap s /\ dests s' = dests s /\ trycatch s' = trycatch s.
Proof.
  intros Hl Hobj Hne Htest. unfold shim_unpack_type, st_bind.
  rewrite (shim_value_is_eq s arg v ty Hl). rewrite decide_False by done.
  destruct (shim_value_is_test ty) as [test|] eqn:Ht.
  - rewrite Hobj, (Htest test eq_refl). simpl. eauto.
  - simpl. eauto.
Qed.




(** C10 (as amended): when each of the [argc] arguments the frame has is
    unpacked with success, [shim_unpack] returns TRUE and raises nothing
    although the list asks for more positional arguments than [argc]: the
    loop stops at [argc] and the missing trailing arguments are not
    reported.  With [argc = 0] every unpack succeeds and changes
    nothing. *)
Theorem shim_unpack_missing_arguments args pairs s s' :
  Forall (fun td => fst td <> SHIM_TYPE_UNKNOWN) pairs ->
  argc args < length pairs ->
  unpacked args 0 (take (argc args) pairs) s s' ->
  shim_unpack args (head_type pairs) (va_tail pairs) s = Some (TRUE, s') /\
  trycatch s' = trycatch s /\
  (argc args = 0 ->
   s' = s /\ forall ty ap, shim_unpack args ty ap s = Some (TRUE, s)).
Proof.
  intros Hty Hlen Hun. split; [|split].
  - unfold shim_unpack. apply shim_unpack_loop_all; [done|lia|].
    by rewrite Nat.sub_0_r.
  - by eapply unpacked_exception.
  - intros H0. split.
    + rewrite H0, take_0 in Hun. by inversion Hun.
    + intros ty ap. unfold shim_unpack. rewrite H0. simpl.
      rewrite H0. simpl. by rewrite andb_false_r.
Qed.

(** ** The trampoline: building and releasing the frame *)

Lemma Static_alloc_argv_eq js :
  forall s,
    Static_alloc_argv js s
    = Some (seq (length (heap s)) (length js),
            with_heap s
              (heap s ++ map (fun a => Some (mk_val (Some a) SHIM_TYPE_UNKNOWN)) js)).
Proof.
  induction js as [|a js IH]; intros s; simpl.
  - unfold st_ret, with_heap. rewrite app_nil_r. by rewrite state_eta.
  - unfold st_bind, shim_val_alloc, malloc. rewrite IH. simpl.
    unfold st_ret, with_heap. simpl.
    rewrite length_app. simpl. rewrite Nat.add_1_r.
    by rewrite <- app_assoc.
Qed.

Lemma Static_build_eq args s :
  Static_build args s
  = Some (mk_args (length (Args args))
                  (seq (S (length (heap s))) (length (Args args)))
                  (Some shim_undefined) (length (heap s))
                  (holder_data (Data args)),
          with_heap s
            (heap s ++ Some (mk_val (Some (This args)) SHIM_TYPE_UNKNOWN)
               :: map (fun a => Some (mk_val (Some a) SHIM_TYPE_UNKNOWN))
                      (Args args))).
Proof.
  unfold Static_build, st_bind, shim_val_alloc, malloc.
  rewrite Static_alloc_argv_eq. simpl. unfold st_ret, with_heap. simpl.
  rewrite length_app. simpl. rewrite Nat.add_1_r.
  by rewrite <- app_assoc.
Qed.

(** The frame the trampoline builds: [argc] fresh cells and the receiver,
    all distinct and none of them a sentinel. *)
Lemma Static_build_frame args s sargs s1 :
  2 <= length (heap s) ->
  Static_build args s = Some (sargs, s1) ->
  argc sargs = length (Args args) /\
  length (argv sargs) = length (Args args) /\
  ret sargs = Some shim_undefined /\
  NoDup (argv sargs ++ [self sargs]) /\
  Forall (fun p => is_static p = false) (argv sargs ++ [self sargs]) /\
  trycatch s1 = trycatch s /\ trace s1 = trace s.
Proof.
  intros Hlen. rewrite Static_build_eq. intros [= <- <-]. simpl.
  repeat split; try done.
  - by rewrite length_seq.
  - apply NoDup_app. repeat split.
    + apply NoDup_seq.
    + intros p Hp Hself%list_elem_of_singleton. subst.
      apply elem_of_seq in Hp. lia.
    + apply NoDup_singleton.
  - apply Forall_forall. intros p Hp. unfold is_static.
    apply Nat.ltb_ge. apply elem_of_app in Hp as [Hp|Hp].
    + apply elem_of_seq in Hp. lia.
    + apply list_elem_of_singleton in Hp. lia.
Qed.

Lemma shim_value_release_eq s p v :
  live s p v -> is_static p = false ->
  shim_value_release (Some p) s
  = Some (tt, mk_state
                (if sentinel_tag (type v) then heap s else <[p := None]> (heap s))
                (dests s) (trycatch s)
                (trace s ++ release_events (heap s) p)).
Proof.
  intros Hl Hst. unfold shim_value_release, st_bind, log, load. simpl.
  unfold live in Hl. rewrite Hl. unfold release_events. rewrite Hl.
  unfold sentinel_tag.
  destruct (bool_decide (type v = SHIM_TYPE_NULL));
    destruct (bool_decide (type v = SHIM_TYPE_UNDEFINED)); simpl;
    try done.
  unfold free. rewrite Hst. simpl. rewrite Hl.
  by rewrite <- app_assoc.
Qed.

Lemma release_events_other h p q w :
  p <> q -> release_events (<[p := w]> h) q = release_events h q.
Proof. intros Hne. unfold release_events. by rewrite list_lookup_insert_ne. Qed.

Lemma flat_map_ext_elem {A B} (f g : A -> list B) l :
  (forall x, x ∈ l -> f x = g x) -> flat_map f l = flat_map g l.
Proof.
  induction l as [|a l IH]; intros H; simpl; [done|].
  rewrite H by apply list_elem_of_here. rewrite IH; [done|].
  intros x Hx. apply H. by apply list_elem_of_further.
Qed.

Lemma release_all_eq ps :
  forall s,
    NoDup ps ->
    Forall (fun p => is_static p = false /\ exists v, live s p v) ps ->
    exists s',
      release_all ps s = Some (tt, s') /\
      dests s' = dests s /\ trycatch s' = trycatch s /\
      trace s' = trace s ++ flat_map (release_events (heap s)) ps /\
      (forall q, q ∉ ps -> heap s' !! q = heap s !! q).
Proof.
  induction ps as [|p ps IH]; intros s Hnd Hall.
  - exists s. simpl. rewrite app_nil_r. done.
  - apply NoDup_cons in Hnd as [Hp Hnd].
    apply Forall_cons in Hall as [[Hst [v Hl]] Hall].
    simpl. unfold st_bind. rewrite (shim_value_release_eq s p v Hl Hst).
    set (s1 := mk_state _ _ _ _).
    assert (forall q, q <> p -> heap s1 !! q = heap s !! q) as Hother.
    { intros q Hq. unfold s1; simpl.
      destruct (sentinel_tag (type v)); [done|].
      by rewrite list_lookup_insert_ne. }
    destruct (IH s1 Hnd) as (s' & Hrun & Hd & He & Htr & Hheap).
    { apply Forall_forall. intros q Hq. rewrite Forall_forall in Hall.
      destruct (Hall q Hq) as [Hq1 [w Hw]]. split; [done|]. exists w.
      unfold live. rewrite Hother; [done|]. by intros ->. }
    exists s'. rewrite Hrun. repeat split; try done.
    + rewrite Htr.
      rewrite (flat_map_ext_elem (release_events (heap s1))
                 (release_events (heap s)) ps).
      * unfold s1. simpl. by rewrite <- app_assoc.
      * intros q Hq. unfold release_events.
        rewrite Hother; [done|]. by intros ->.
    + intros q Hq. apply not_elem_of_cons in Hq as [Hqp Hq].
      rewrite Hheap by done. by apply Hother.
Qed.

Lemma release_all_app ps qs s :
  release_all (ps ++ qs) s = st_bind (release_all ps) (fun _ => release_all qs) s.
Proof.
  revert s. induction ps as [|p ps IH]; intros s; simpl; [done|].
  unfold st_bind.
  destruct (shim_value_release (Some p) s) as [[[] s1]|]; [|done].
  rewrite IH. done.
Qed.

Lemma Static_release_argv_seq sargs n :
  forall i s,
    i + n <= length (argv sargs) ->
    Static_release_argv sargs (seq i n) s
    = release_all (take n (drop i (argv sargs))) s.
Proof.
  induction n as [|n IH]; intros i s Hlen; simpl; [done|].
  destruct (argv sargs !! i) as [p|] eqn:Hp;
    [|apply lookup_ge_None in Hp; lia].
  rewrite (drop_S _ _ _ Hp). simpl.
  unfold st_bind, st_lift.
  destruct (shim_value_release (Some p) s) as [[[] s1]|]; [|done].
  apply IH. lia.
Qed.

Lemma Static_release_eq sargs s :
  argc sargs = length (argv sargs) ->
  Static_release sargs s = release_all (argv sargs ++ [self sargs]) s.
Proof.
  intros Hlen. unfold Static_release. rewrite release_all_app.
  unfold st_bind. rewrite Static_release_argv_seq by lia.
  rewrite drop_0, Hlen, firstn_all. simpl.
  destruct (release_all (argv sargs) s) as [[[] s1]|]; [|done].
  unfold st_bind. by destruct (shim_value_release _ s1) as [[[] ?]|].
Qed.

(** Counting in the record of the releases. *)

Lemma count_release_events h ps :
  count is_release (flat_map (release_events h) ps) = length ps.
Proof.
  induction ps as [|p ps IH]; simpl; [done|].
  rewrite count_app, IH.
  by destruct (h !! p) as [[v|]|]; [destruct (sentinel_tag (type v))|..].
Qed.

Lemma count_release_of_absent h ps p :
  p ∉ ps -> count (is_release_of p) (flat_map (release_events h) ps) = 0.
Proof.
  induction ps as [|q ps IH]; simpl; [done|].
  intros [Hne Hp]%not_elem_of_cons. rewrite count_app, IH by done.
  apply Nat.eqb_neq in Hne as ->.
  by destruct (h !! q) as [[v|]|]; [destruct (sentinel_tag (type v))|..].
Qed.

Lemma count_release_of_once h ps p :
  NoDup ps -> p ∈ ps ->
  count (is_release_of p) (flat_map (release_events h) ps) = 1.
Proof.
  induction ps as [|q ps IH]; intros Hnd Hp; [by apply elem_of_nil in Hp|].
  apply NoDup_cons in Hnd as [Hq Hnd]. simpl. rewrite count_app.
  apply elem_of_cons in Hp as [->|Hp].
  - rewrite count_release_of_absent by done. rewrite Nat.eqb_refl.
    by destruct (h !! q) as [[v|]|]; [destruct (sentinel_tag (type v))|..].
  - rewrite IH by done.
    assert (p <> q) as Hne by (by intros ->).
    apply Nat.eqb_neq in Hne as ->.
    by destruct (h !! q) as [[v|]|]; [destruct (sentinel_tag (type v))|..].
Qed.

Lemma count_free_of_absent h ps p :
  p ∉ ps -> count (is_free_of p) (flat_map (release_events h) ps) = 0.
Proof.
  induction ps as [|q ps IH]; simpl; [done|].
  intros [Hne Hp]%not_elem_of_cons. rewrite count_app, IH by done.
  destruct (h !! q) as [[v|]|]; [destruct (sentinel_tag (type v))|..];
    simpl; try done.
  by apply Nat.eqb_neq in Hne as ->.
Qed.

Lemma count_free_of_once h ps p v :
  NoDup ps -> p ∈ ps -> h !! p = Some (Some v) ->
  count (is_free_of p) (flat_map (release_events h) ps)
  = if sentinel_tag (type v) then 0 else 1.
Proof.
  induction ps as [|q ps IH]; intros Hnd Hp Hv; [by apply elem_of_nil in Hp|].
  apply NoDup_cons in Hnd as [Hq Hnd]. simpl. rewrite count_app.
  apply elem_of_cons in Hp as [->|Hp].
  - rewrite count_free_of_absent by done. rewrite Hv.
    destruct (sentinel_tag (type v)); simpl; [done|].
    by rewrite Nat.eqb_refl.
  - rewrite IH by done.
    assert (p <> q) as Hne by (by intros ->).
    destruct (h !! q) as [[w|]|]; [destruct (sentinel_tag (type w))|..];
      simpl; try done.
    by apply Nat.eqb_neq in Hne as ->.
Qed.

Lemma live_unique s p v w : live s p v -> live s p w -> v = w.
Proof. unfold live. congruence. Qed.

(** The heap after a list of releases. *)
Lemma release_all_heap ps :
  forall s s',
    NoDup ps ->
    Forall (fun p => is_static p = false /\ exists v, live s p v) ps ->
    release_all ps s = Some (tt, s') ->
    length (heap s') = length (heap s) /\
    forall p v, p ∈ ps -> live s p v ->
                heap s' !! p
                = if sentinel_tag (type v) then Some (Some v) else Some None.
Proof.
  induction ps as [|p0 ps IH]; intros s s' Hnd Hall Hrun.
  - split; [by injection Hrun as <-|]. intros p v Hp. by apply elem_of_nil in Hp.
  - apply NoDup_cons in Hnd as [Hp0 Hnd].
    apply Forall_cons in Hall as [[Hst [v0 Hl0]] Hall].
    simpl in Hrun. unfold st_bind in Hrun.
    rewrite (shim_value_release_eq s p0 v0 Hl0 Hst) in Hrun.
    set (s1 := mk_state _ _ _ _) in Hrun.
    assert (forall q, q <> p0 -> heap s1 !! q = heap s !! q) as Hother.
    { intros q Hq. unfold s1; simpl.
      destruct (sentinel_tag (type v0)); [done|].
      by rewrite list_lookup_insert_ne. }
    assert (length (heap s1) = length (heap s)) as Hlen1.
    { unfold s1; simpl. destruct (sentinel_tag (type v0)); [done|].
      by rewrite length_insert. }
    assert (Forall (fun p => is_static p = false /\ exists v, live s1 p v) ps)
      as Hall1.
    { apply Forall_forall. intros q Hq. rewrite Forall_forall in Hall.
      destruct (Hall q Hq) as [Hq1 [w Hw]]. split; [done|]. exists w.
      unfold live. rewrite Hother; [done|]. by intros ->. }
    destruct (IH s1 s' Hnd Hall1 Hrun) as [Hlen Hin].
    split; [congruence|].
    intros p v Hp Hv. apply elem_of_cons in Hp as [->|Hp].
    + pose proof (live_unique _ _ _ _ Hv Hl0) as ->.
      destruct (release_all_eq ps s1 Hnd Hall1) as (s'' & Hrun' & _ & _ & _ & Hkeep).
      assert (s'' = s') as -> by congruence.
      rewrite Hkeep by done. unfold s1; simpl.
      destruct (sentinel_tag (type v0)); [done|].
      apply list_lookup_insert_eq. by eapply lookup_lt_Some.
    + apply Hin; [done|]. unfold live. rewrite Hother; [done|]. by intros ->.
Qed.

Lemma Static_collect_state sargs s v s' :
  Static_collect sargs s = Some (v, s') -> s' = s.
Proof.
  unfold Static_collect. destruct (ret sargs) as [r|].
  - intros (w & s1 & Hload & H)%st_bind_inv.
    apply load_inv in Hload as [_ ->].
    destruct (type w); monad_inv; done.
  - by intros [_ ->]%st_ret_inv.
Qed.

(** The whole trampoline, once the callback has returned with its frame
    kept: the value is collected, the frame released, and the exit taken
    on the exception state the callback left. *)
Lemma Static_eq new args s sargs s1 ok sargs' s2 v :
  2 <= length (heap s) ->
  Static_build args (with_exception s None) = Some (sargs, s1) ->
  cfunc (Data args) sargs s1 = Some ((ok, sargs'), s2) ->
  callback_kept_frame sargs sargs' s2 ->
  Static_collect sargs' s2 = Some (v, s2) ->
  exists s3,
    Static new args s
    = Some (match trycatch s2 with
            | Some exc => mk_outcome (Some exc) (if new then None else Some exc)
            | None => mk_outcome None (Some v)
            end, s3) /\
    trace s3
    = trace s2
      ++ flat_map (release_events (heap s2)) (argv sargs ++ [self sargs]) /\
    dests s3 = dests s2 /\ trycatch s3 = trycatch s2 /\
    (forall q, q ∉ argv sargs ++ [self sargs] -> heap s3 !! q = heap s2 !! q).
Proof.
  intros Hlen Hbuild Hcb (Hargc & Hargv & Hself & Hlive) Hcollect.
  destruct (Static_build_frame args (with_exception s None) sargs s1 Hlen Hbuild)
    as (Hc & Hl & _ & Hnd & Hstatic & _).
  destruct (release_all_eq (argv sargs ++ [self sargs]) s2 Hnd)
    as (s3 & Hrel & Hd & He & Htr & Hheap).
  { apply Forall_forall. intros p Hp. rewrite !Forall_forall in *. eauto. }
  exists s3. split; [|done].
  unfold Static, st_bind at 1. unfold SHIM_PROLOGUE.
  fold (with_exception s None).
  unfold st_bind at 1. rewrite Hbuild.
  unfold st_bind at 1. rewrite Hcb. simpl.
  unfold st_bind at 1. rewrite Hcollect.
  unfold st_bind. rewrite Static_release_eq by congruence.
  rewrite Hargv, Hself, Hrel. unfold Static_exit. rewrite He.
  by destruct (trycatch s2).
Qed.

(** ** The trampoline: what the runtime observes *)

(** Where the trampoline puts the frame: in cells it allocates itself,
    past the end of the heap it found. *)
Lemma Static_build_fresh args s sargs s1 :
  Static_build args s = Some (sargs, s1) ->
  Forall (fun p => length (heap s) <= p /\ heap s !! p = None)
         (argv sargs ++ [self sargs]).
Proof.
  rewrite Static_build_eq. intros [= <- <-]. simpl.
  apply Forall_forall. intros p Hp.
  assert (length (heap s) <= p) as Hle.
  { apply elem_of_app in Hp as [Hp|Hp].
    - apply elem_of_seq in Hp. lia.
    - apply list_elem_of_singleton in Hp. lia. }
  split; [done|]. by apply lookup_ge_None_2.
Qed.

(** C3 (code bug): on every exit path (success, failure, exception
    pending) the trampoline calls [shim_value_release] once on each of
    the [argc] argument values it allocated and on the receiver, and on
    nothing else.  But that call frees the cell only if the tag of the
    cell is neither undefined nor null by then.  A frame cell that the
    callback has had classified as undefined or null ([shim_value_is]
    caches the tag) is therefore never freed: it was allocated by this
    invocation and is still allocated once the trampoline has exited.
    The frame cells of any other tag are freed, each exactly once. *)
Theorem Static_leaks_retagged_cells new args s sargs s1 ok sargs' s2 :
  2 <= length (heap s) ->
  Static_build args (with_exception s None) = Some (sargs, s1) ->
  cfunc (Data args) sargs s1 = Some ((ok, sargs'), s2) ->
  callback_kept_frame sargs sargs' s2 ->
  is_Some (Static_collect sargs' s2) ->
  exists out s3 evs,
    Static new args s = Some (out, s3) /\
    trace s3 = trace s2 ++ evs /\
    length (argv sargs) = length (Args args) /\
    count is_release evs = length (Args args) + 1 /\
    (forall p, p ∈ argv sargs ++ [self sargs] ->
               heap s !! p = None /\ is_static p = false /\
               count (is_release_of p) evs = 1) /\
    (forall p, p ∉ argv sargs ++ [self sargs] ->
               count (is_release_of p) evs = 0 /\
               count (is_free_of p) evs = 0 /\
               heap s3 !! p = heap s2 !! p) /\
    (forall p v, p ∈ argv sargs ++ [self sargs] -> live s2 p v ->
                 sentinel_tag (type v) = false ->
                 heap s3 !! p = Some None /\
                 count (is_free_of p) evs = 1) /\
    (forall p v, p ∈ argv sargs ++ [self sargs] -> live s2 p v ->
                 sentinel_tag (type v) = true ->
                 live s3 p v /\
                 count (is_free_of p) evs = 0).
Proof.
  intros Hlen Hbuild Hcb Hkept [[v s2'] Hcollect].
  pose proof (Static_collect_state _ _ _ _ Hcollect) as ->.
  destruct (Static_eq new args s sargs s1 ok sargs' s2 v
              Hlen Hbuild Hcb Hkept Hcollect)
    as (s3 & Hrun & Htr & _ & _ & Hother).
  destruct (Static_build_frame args (with_exception s None) sargs s1 Hlen Hbuild)
    as (Hc & Hl & _ & Hnd & Hstatic & _).
  pose proof (Static_build_fresh _ _ _ _ Hbuild) as Hfresh. simpl in Hfresh.
  pose proof Hkept as (Hargc & Hargv & Hself & Hlive).
  assert (Forall (fun p => is_static p = false /\ exists v, live s2 p v)
            (argv sargs ++ [self sargs])) as Hall.
  { apply Forall_forall. intros p Hp. rewrite !Forall_forall in *. eauto. }
  assert (release_all (argv sargs ++ [self sargs]) s2 = Some (tt, s3)) as Hrel.
  { revert Hrun. unfold Static, st_bind at 1. unfold SHIM_PROLOGUE.
    fold (with_exception s None).
    unfold st_bind at 1. rewrite Hbuild.
    unfold st_bind at 1. rewrite Hcb. simpl.
    unfold st_bind at 1. rewrite Hcollect.
    unfold st_bind at 1. rewrite Static_release_eq by congruence.
    rewrite Hargv, Hself.
    destruct (release_all (argv sargs ++ [self sargs]) s2) as [[[] s3']|];
      [|done].
    unfold Static_exit. destruct (trycatch s3'); by intros [= _ ->]. }
  destruct (release_all_heap _ s2 s3 Hnd Hall Hrel) as [_ Hin].
  eexists _, s3, _. split; [exact Hrun|]. split; [exact Htr|].
  split; [done|]. split; [|split; [|split; [|split]]].
  - rewrite count_release_events, length_app, Hl. simpl. done.
  - intros p Hp. rewrite !Forall_forall in *.
    split; [by apply Hfresh|]. split; [by apply Hstatic|].
    by apply count_release_of_once.
  - intros p Hp. split; [by apply count_release_of_absent|].
    split; [by apply count_free_of_absent|]. by apply Hother.
  - intros p w Hp Hw Htag. split.
    + rewrite (Hin p w Hp Hw). by rewrite Htag.
    + rewrite (count_free_of_once _ _ _ w) by done. by rewrite Htag.
  - intros p w Hp Hw Htag. split.
    + unfold live. rewrite (Hin p w Hp Hw). by rewrite Htag.
    + rewrite (count_free_of_once _ _ _ w) by done. by rewrite Htag.
Qed.

(** C1 (as amended): the trampoline starts the return slot at the
    undefined sentinel.  Take a callback that returns with the frame's
    cells still allocated and no exception pending.  If it left the slot
    as it found it, and the undefined sentinel still carries the undefined
    tag, the runtime receives its undefined value.  In general the slot at
    exit decides: a NULL pointer gives null; a value tagged undefined
    gives undefined; a value tagged null (the null sentinel for one) gives
    null; a value of any other tag gives its own handle, and if that
    handle is empty the assert on the collected value fails. *)
Theorem Static_return_slot_default new args s sargs s1 ok sargs' s2 :
  2 <= length (heap s) ->
  Static_build args (with_exception s None) = Some (sargs, s1) ->
  cfunc (Data args) sargs s1 = Some ((ok, sargs'), s2) ->
  callback_kept_frame sargs sargs' s2 ->
  trycatch s2 = None ->
  let returns v :=
    exists s3, Static new args s = Some (mk_outcome None (Some v), s3) in
  ret sargs = Some shim_undefined /\
  (forall u,
     ret sargs' = ret sargs ->
     live s2 shim_undefined u -> type u = SHIM_TYPE_UNDEFINED ->
     returns Undefined) /\
  (ret sargs' = None -> returns Null) /\
  (forall r w,
     ret sargs' = Some r -> live s2 r w ->
     (type w = SHIM_TYPE_UNDEFINED -> returns Undefined) /\
     (type w = SHIM_TYPE_NULL -> returns Null) /\
     (sentinel_tag (type w) = false ->
      match handle w with
      | Some h => returns h
      | None => Static new args s = None
      end)).
Proof.
  intros Hlen Hbuild Hcb Hkept Hexc returns.
  destruct (Static_build_frame args (with_exception s None) sargs s1 Hlen Hbuild)
    as (_ & _ & Hret & _).
  assert (forall v, Static_collect sargs' s2 = Some (v, s2) -> returns v)
    as Hreturns.
  { intros v Hcollect.
    destruct (Static_eq new args s sargs s1 ok sargs' s2 _
                Hlen Hbuild Hcb Hkept Hcollect) as (s3 & Hrun & _).
    rewrite Hexc in Hrun. by exists s3. }
  assert (forall r w,
            ret sargs' = Some r -> live s2 r w ->
            (type w = SHIM_TYPE_UNDEFINED -> returns Undefined) /\
            (type w = SHIM_TYPE_NULL -> returns Null) /\
            (sentinel_tag (type w) = false ->
             match handle w with
             | Some h => returns h
             | None => Static new args s = None
             end)) as Hslot.
  { intros r w Hr Hw.
    assert (Static_collect sargs' s2
            = match type w with
              | SHIM_TYPE_UNDEFINED => Some (Undefined, s2)
              | SHIM_TYPE_NULL => Some (Null, s2)
              | _ => match handle w with
                     | Some h => Some (h, s2)
                     | None => None
                     end
              end) as Hcollect.
    { unfold Static_collect. rewrite Hr. unfold st_bind.
      rewrite (load_live _ _ _ Hw).
      destruct (type w); try done; by destruct (handle w). }
    split; [|split].
    - intros Hty. rewrite Hty in Hcollect. by apply Hreturns.
    - intros Hty. rewrite Hty in Hcollect. by apply Hreturns.
    - intros Htag.
      assert (Static_collect sargs' s2
              = match handle w with
                | Some h => Some (h, s2)
                | None => None
                end) as Hcollect'.
      { rewrite Hcollect. by destruct (type w). }
      destruct (handle w) as [h|]; [by apply Hreturns|].
      unfold Static, st_bind at 1. unfold SHIM_PROLOGUE.
      fold (with_exception s None).
      unfold st_bind at 1. rewrite Hbuild.
      unfold st_bind at 1. rewrite Hcb. simpl.
      unfold st_bind at 1. by rewrite Hcollect'. }
  split; [done|]. split; [|split; [|done]].
  - intros u Hsame Hu Hty. rewrite Hret in Hsame.
    by apply (Hslot shim_undefined u Hsame Hu).
  - intros Hnull. apply Hreturns. unfold Static_collect. by rewrite Hnull.
Qed.

(** C7: when the callback has both left an exception pending and put a
    value in the return slot, the trampoline rethrows the exception, and
    what it hands to the native return path does not come from the return
    slot: nothing with the newer ABI, the exception itself with the older
    one. *)
Theorem Static_exception_precedence new args s sargs s1 ok sargs' s2 exc r v :
  2 <= length (heap s) ->
  Static_build args (with_exception s None) = Some (sargs, s1) ->
  cfunc (Data args) sargs s1 = Some ((ok, sargs'), s2) ->
  callback_kept_frame sargs sargs' s2 ->
  trycatch s2 = Some exc ->
  ret sargs' = Some r ->
  Static_collect sargs' s2 = Some (v, s2) ->
  exists s3,
    Static new args s
    = Some (mk_outcome (Some exc) (if new then None else Some exc), s3) /\
    trycatch s3 = Some exc.
Proof.
  intros Hlen Hbuild Hcb Hkept Hexc _ Hcollect.
  destruct (Static_eq new args s sargs s1 ok sargs' s2 v
              Hlen Hbuild Hcb Hkept Hcollect)
    as (s3 & Hrun & _ & _ & He & _).
  rewrite Hexc in Hrun. exists s3. split; [done|]. congruence.
Qed.

(** ** Coercion *)

(** The targets whose case ends in [break] are coerced and tagged. *)
Lemma shim_value_to_coerces s val rval v w obj ty coerce :
  live s val v -> live s rval w ->
  type v <> ty -> handle v = Some obj ->
  shim_value_to_coerce ty = Some coerce ->
  shim_value_to val ty rval s
  = Some (TRUE, with_heap s (<[rval := Some (mk_val (Some (coerce obj)) ty)]>
                               (heap s))).
Proof.
  intros Hv Hw Hne Hobj Hco. unfold shim_value_to, st_bind.
  rewrite (load_live _ _ _ Hv). rewrite decide_False by done.
  assert (match shim_value_to_coerce ty with
          | Some c => c = coerce | None => False end) as Hc
    by (by rewrite Hco).
  destruct ty; simpl in Hc; try done; subst coerce;
    rewrite Hco; unfold deref, st_lift; rewrite Hobj;
    rewrite (set_handle_live _ _ _ _ Hw);
    erewrite set_type_live by (by eapply live_insert_eq);
    unfold st_ret, with_heap; simpl; by rewrite list_insert_insert_eq.
Qed.

(** A cached tag equal to the target answers TRUE, also for the target
    SHIM_TYPE_UNKNOWN. *)
Lemma shim_value_to_same_tag s val rval v w :
  live s val v -> live s rval w -> val <> rval ->
  shim_value_to val (type v) rval s
  = Some (TRUE, with_heap s (<[rval := Some v]> (heap s))).
Proof.
  intros Hv Hw Hne. unfold shim_value_to, st_bind.
  rewrite (load_live _ _ _ Hv). rewrite decide_True by done.
  rewrite (set_type_live _ _ _ _ Hw).
  erewrite load_live by (apply live_insert_ne; eauto).
  erewrite set_handle_live by (by eapply live_insert_eq).
  unfold st_ret, with_heap; simpl. rewrite list_insert_insert_eq.
  by destruct v.
Qed.

(** C2 (the code at the failing input): asked for a string for a value
    whose cached tag is not SHIM_TYPE_STRING, [shim_value_to] stores the
    string handle in [rval] and then falls through to the default case: it
    returns FALSE and leaves the tag of [rval] as it was. *)
Theorem shim_value_to_string_falls_through s val rval v w obj :
  live s val v -> live s rval w ->
  type v <> SHIM_TYPE_STRING -> handle v = Some obj ->
  shim_value_to val SHIM_TYPE_STRING rval s
  = Some (FALSE,
          with_heap s
            (<[rval := Some (mk_val (Some (OBJ_TO_STRING obj)) (type w))]>
               (heap s))).
Proof.
  intros Hv Hw Hne Hobj. unfold shim_value_to, st_bind.
  rewrite (load_live _ _ _ Hv). rewrite decide_False by done.
  unfold deref, st_lift. rewrite Hobj.
  by rewrite (set_handle_live _ _ _ _ Hw).
Qed.

(** * Further properties of the code *)

(** ** Coercion and classification together *)

(** X1: whenever [shim_value_to] returns TRUE, the destination carries the
    requested tag, so [shim_value_is] on it for that type answers TRUE
    from the cache, with no runtime test and no change.  The conversion
    itself writes the destination only: every other cell, the unpack
    destinations and the record of the tests are as before. *)
Theorem shim_value_to_then_is val ty rval s s' :
  shim_value_to val ty rval s = Some (TRUE, s') ->
  (exists w, live s' rval w /\ type w = ty) /\
  shim_value_is rval ty s' = Some (TRUE, s') /\
  (forall q, q <> rval -> heap s' !! q = heap s !! q) /\
  dests s' = dests s /\ trace s' = trace s.
Proof.
  intros H.
  assert ((exists w, live s' rval w /\ type w = ty) /\
          (forall q, q <> rval -> heap s' !! q = heap s !! q) /\
          dests s' = dests s /\ trace s' = trace s) as (Hw & Hrest).
  { unfold shim_value_to in H.
    apply st_bind_inv in H as (v & s0 & Hload & H).
    apply load_inv in Hload as [Hv ->].
    destruct (decide (type v = ty)) as [Heq|Hne].
    - apply st_bind_inv in H as (u1 & s1 & Hset & H).
      apply set_type_inv in Hset as (w0 & Hw0 & ->).
      apply st_bind_inv in H as (v' & s2 & Hload & H).
      apply load_inv in Hload as [Hv' ->].
      apply st_bind_inv in H as (u2 & s2 & Hset & H).
      apply st_ret_inv in H as [_ ->].
      apply set_handle_inv in Hset as (w1 & Hw1 & ->).
      pose proof (live_unique _ _ _ _ Hw1 (live_insert_eq _ _ _ _ Hw0)) as ->.
      split; [|split; [|done]].
      + eexists. split; [by eapply live_insert_eq | reflexivity].
      + intros q Hq. simpl. by rewrite !list_lookup_insert_ne.
    - assert (forall h s1,
                st_bind (set_handle rval h)
                  (fun _ => st_bind (set_type rval ty) (fun _ => st_ret TRUE)) s1
                = Some (TRUE, s') ->
                (exists w, live s' rval w /\ type w = ty) /\
                (forall q, q <> rval -> heap s' !! q = heap s1 !! q) /\
                dests s' = dests s1 /\ trace s' = trace s1) as Hboth.
      { intros h s1 H1.
        apply st_bind_inv in H1 as (u1 & s2 & Hset & H1).
        apply set_handle_inv in Hset as (w0 & Hw0 & ->).
        apply st_bind_inv in H1 as (u2 & s2 & Hset & H1).
        apply st_ret_inv in H1 as [_ ->].
        apply set_type_inv in Hset as (w1 & Hw1 & ->).
        split; [|split; [|done]].
        + eexists. split; [by eapply live_insert_eq | reflexivity].
        + intros q Hq. simpl. by rewrite !list_lookup_insert_ne. }
      destruct ty; simpl in H;
        try (by apply st_ret_inv in H as [? _]);
        try (by apply Hboth in H);
        try (apply st_bind_inv in H as (obj & s1 & Hobj & H);
             apply st_lift_inv in Hobj as [_ ->]; by apply Hboth in H).
      apply st_bind_inv in H as (obj & s1 & Hobj & H).
      apply st_bind_inv in H as (u & s2 & _ & H).
      by apply st_ret_inv in H as [? _]. }
  split; [done|]. split; [|done].
  destruct Hw as (w & Hw & Hty).
  rewrite (shim_value_is_eq s' rval w ty Hw). by rewrite decide_True.
Qed.

(** X2: converting to undefined or to null never looks at the source's
    handle (it may be NULL), returns TRUE, and leaves in the destination
    the runtime's constant under the sentinel tag: from then on
    [shim_value_release] on the destination frees nothing. *)
Theorem shim_value_to_sentinel_tag s val rval v w ty :
  live s val v -> live s rval w -> type v <> ty ->
  ty = SHIM_TYPE_UNDEFINED \/ ty = SHIM_TYPE_NULL ->
  let c := if decide (ty = SHIM_TYPE_UNDEFINED) then Undefined else Null in
  let s' := with_heap s (<[rval := Some (mk_val (Some c) ty)]> (heap s)) in
  shim_value_to val ty rval s = Some (TRUE, s') /\
  shim_value_release (Some rval) s'
  = Some (tt, with_trace s' (trace s' ++ [EvRelease (Some rval)])).
Proof.
  intros Hv Hw Hne Hty c s'.
  assert (live s' rval (mk_val (Some c) ty)) as Hl'
    by (by eapply live_insert_eq).
  split.
  - unfold shim_value_to, st_bind. rewrite (load_live _ _ _ Hv).
    rewrite decide_False by done.
    destruct Hty as [-> | ->]; simpl;
      rewrite (set_handle_live _ _ _ _ Hw);
      erewrite set_type_live by (by eapply live_insert_eq);
      unfold st_ret, s', c, with_heap; simpl;
      by rewrite list_insert_insert_eq.
  - apply shim_value_release_skip with (mk_val (Some c) ty); [done|].
    by destruct Hty as [-> | ->].
Qed.

(** X3: the tag holds one classification only.  For a value that
    satisfies two different types, asking for the first, the second and
    the first again answers TRUE each time and makes the runtime test
    each time: the second answer evicts the first from the tag. *)
Theorem shim_value_is_last_tag_wins s p v obj t1 t2 test1 test2 :
  live s p v -> handle v = Some obj ->
  type v <> t1 -> t1 <> t2 ->
  shim_value_is_test t1 = Some test1 -> shim_value_is_test t2 = Some test2 ->
  test1 obj = true -> test2 obj = true ->
  exists s',
    shim_value_is_alternating p t1 t2 s = Some ((TRUE, TRUE, TRUE), s') /\
    live s' p (mk_val (Some obj) t1) /\
    count is_test (trace s') = count is_test (trace s) + 3.
Proof.
  intros Hl Hobj Hne1 Hne Ht1 Ht2 Hr1 Hr2.
  unfold shim_value_is_alternating, st_bind.
  rewrite (shim_value_is_eq s p v t1 Hl), decide_False, Ht1, Hobj, Hr1 by done.
  set (s1 := mk_state _ _ _ _).
  assert (live s1 p (mk_val (Some obj) t1)) as Hl1
    by (unfold live, s1; simpl; apply list_lookup_insert_eq;
        by eapply lookup_lt_Some).
  rewrite (shim_value_is_eq s1 p _ t2 Hl1). simpl.
  rewrite decide_False, Ht2, Hr2 by done.
  set (s2 := mk_state _ _ _ _).
  assert (live s2 p (mk_val (Some obj) t2)) as Hl2
    by (unfold live, s2; simpl; apply list_lookup_insert_eq;
        by eapply lookup_lt_Some).
  rewrite (shim_value_is_eq s2 p _ t1 Hl2). simpl.
  rewrite decide_False, Ht1, Hr1 by done.
  eexists. split; [reflexivity|]. split.
  - unfold live; simpl. apply list_lookup_insert_eq.
    by eapply lookup_lt_Some.
  - simpl. rewrite !count_app. simpl. lia.
Qed.

(** X4: once [shim_value_is] has classified an allocated value as
    undefined or null, [shim_value_release] no longer frees it: the call
    returns with the cell still allocated and no free made. *)
Theorem shim_value_is_sentinel_tag_leaks s p v obj ty :
  live s p v -> handle v = Some obj -> type v <> ty ->
  (ty = SHIM_TYPE_UNDEFINED /\ IsUndefined obj = true) \/
  (ty = SHIM_TYPE_NULL /\ IsNull obj = true) ->
  exists s1 s2,
    shim_value_is p ty s = Some (TRUE, s1) /\
    shim_value_release (Some p) s1 = Some (tt, s2) /\
    live s2 p (mk_val (Some obj) ty) /\
    count (is_free_of p) (trace s2) = count (is_free_of p) (trace s).
Proof.
  intros Hl Hobj Hne Hty.
  rewrite (shim_value_is_eq s p v ty Hl), decide_False by done.
  assert (exists test, shim_value_is_test ty = Some test /\ test obj = true)
    as (test & -> & Hr) by (destruct Hty as [[-> ?] | [-> ?]]; eauto).
  rewrite Hobj, Hr.
  set (s1 := mk_state _ _ _ _).
  assert (live s1 p (mk_val (Some obj) ty)) as Hl1
    by (unfold live, s1; simpl; apply list_lookup_insert_eq;
        by eapply lookup_lt_Some).
  exists s1, (with_trace s1 (trace s1 ++ [EvRelease (Some p)])).
  split; [done|]. split.
  - apply shim_value_release_skip with (mk_val (Some obj) ty); [done|].
    by destruct Hty as [[-> _] | [-> _]].
  - split; [done|]. simpl. rewrite !count_app. simpl. lia.
Qed.

(** X5: releasing an allocated value whose tag is neither undefined nor
    null frees its cell, once; after that any further release of the
    pointer, and any classification through it, is a use of freed memory.
    Releasing a NULL pointer does nothing. *)
Theorem shim_value_release_then_use s p v :
  live s p v -> is_static p = false -> sentinel_tag (type v) = false ->
  exists s',
    shim_value_release (Some p) s = Some (tt, s') /\
    freed s' p /\
    count (is_free_of p) (trace s') = count (is_free_of p) (trace s) + 1 /\
    shim_value_release (Some p) s' = None /\
    (forall ty, shim_value_is p ty s' = None) /\
    shim_value_release None s
    = Some (tt, with_trace s (trace s ++ [EvRelease None])).
Proof.
  intros Hl Hst Htag.
  rewrite (shim_value_release_eq s p v Hl Hst). rewrite Htag.
  eexists. split; [reflexivity|].
  assert (<[p := None]> (heap s) !! p = Some None) as Hfreed
    by (apply list_lookup_insert_eq; by eapply lookup_lt_Some).
  repeat split.
  - done.
  - simpl. unfold release_events. unfold live in Hl. rewrite Hl, Htag.
    rewrite count_app. simpl. rewrite Nat.eqb_refl. lia.
  - unfold shim_value_release, st_bind, log, load. simpl. by rewrite Hfreed.
  - intros ty. unfold shim_value_is, st_bind, load. simpl. by rewrite Hfreed.
Qed.

(** ** More on the trampoline *)

(** X6: the trampoline does not look at what the callback returns: two
    callbacks that leave the same frame and the same state, one reporting
    success and the other failure, give the same outcome and the same
    final state. *)
Theorem Static_ignores_callback_result new args1 args2 s sargs s1 ok1 ok2
    sargs' s2 :
  This args1 = This args2 -> Args args1 = Args args2 ->
  holder_data (Data args1) = holder_data (Data args2) ->
  Static_build args1 (with_exception s None) = Some (sargs, s1) ->
  cfunc (Data args1) sargs s1 = Some ((ok1, sargs'), s2) ->
  cfunc (Data args2) sargs s1 = Some ((ok2, sargs'), s2) ->
  Static new args1 s = Static new args2 s.
Proof.
  intros Hthis Hargs Hdata Hbuild Hcb1 Hcb2.
  assert (Static_build args2 (with_exception s None) = Some (sargs, s1))
    as Hbuild2.
  { rewrite <- Hbuild. rewrite !Static_build_eq.
    by rewrite Hthis, Hargs, Hdata. }
  unfold with_exception in Hbuild, Hbuild2.
  unfold Static, st_bind, SHIM_PROLOGUE.
  by rewrite Hbuild, Hbuild2, Hcb1, Hcb2.
Qed.

(** X7: with no exception pending, a value the callback put in the return
    slot reaches the runtime as its handle; and the trampoline does not
    release the cell of that value (unless it is one of the frame's own
    cells): it stays allocated when the trampoline exits. *)
Theorem Static_returns_slot_value new args s sargs s1 ok sargs' s2 r w h :
  2 <= length (heap s) ->
  Static_build args (with_exception s None) = Some (sargs, s1) ->
  cfunc (Data args) sargs s1 = Some ((ok, sargs'), s2) ->
  callback_kept_frame sargs sargs' s2 ->
  trycatch s2 = None ->
  ret sargs' = Some r -> live s2 r w ->
  sentinel_tag (type w) = false -> handle w = Some h ->
  exists s3,
    Static new args s = Some (mk_outcome None (Some h), s3) /\
    (r ∉ argv sargs ++ [self sargs] -> live s3 r w).
Proof.
  intros Hlen Hbuild Hcb Hkept Hexc Hret Hr Htag Hh.
  assert (Static_collect sargs' s2 = Some (h, s2)) as Hcollect.
  { unfold Static_collect. rewrite Hret. unfold st_bind.
    rewrite (load_live _ _ _ Hr). unfold st_lift, st_ret.
    destruct w as [hw tw]. simpl in *. subst hw.
    destruct tw; try done. }
  destruct (Static_eq new args s sargs s1 ok sargs' s2 h
              Hlen Hbuild Hcb Hkept Hcollect)
    as (s3 & Hrun & _ & _ & _ & Hheap).
  rewrite Hexc in Hrun. exists s3. split; [done|].
  intros Hnot. unfold live. by rewrite Hheap.
Qed.

(** X8: when the trampoline exits, every cell of the frame whose tag is
    neither undefined nor null has been freed, a frame cell with such a
    tag is still allocated, and every other cell of the heap (the
    sentinels, whatever the callback allocated) is as the callback left
    it. *)
Theorem Static_frees_frame new args s sargs s1 ok sargs' s2 :
  2 <= length (heap s) ->
  Static_build args (with_exception s None) = Some (sargs, s1) ->
  cfunc (Data args) sargs s1 = Some ((ok, sargs'), s2) ->
  callback_kept_frame sargs sargs' s2 ->
  is_Some (Static_collect sargs' s2) ->
  exists out s3,
    Static new args s = Some (out, s3) /\
    length (heap s3) = length (heap s2) /\
    (forall p v, p ∈ argv sargs ++ [self sargs] -> live s2 p v ->
                 if sentinel_tag (type v) then live s3 p v else freed s3 p) /\
    (forall q, q ∉ argv sargs ++ [self sargs] ->
               heap s3 !! q = heap s2 !! q).
Proof.
  intros Hlen Hbuild Hcb Hkept [[v s2'] Hcollect].
  pose proof (Static_collect_state _ _ _ _ Hcollect) as ->.
  pose proof Hkept as (Hargc & Hargv & Hself & Hlive).
  destruct (Static_build_frame args (with_exception s None) sargs s1 Hlen Hbuild)
    as (Hc & Hl & _ & Hnd & Hstatic & _).
  assert (Forall (fun p => is_static p = false /\ exists v, live s2 p v)
            (argv sargs ++ [self sargs])) as Hall.
  { apply Forall_forall. intros p Hp. rewrite !Forall_forall in *. eauto. }
  destruct (release_all_eq (argv sargs ++ [self sargs]) s2 Hnd Hall)
    as (s3 & Hrel & _ & He & _ & Hheap).
  destruct (release_all_heap _ s2 s3 Hnd Hall Hrel) as [Hlen3 Hin].
  exists (match trycatch s2 with
          | Some exc => mk_outcome (Some exc) (if new then None else Some exc)
          | None => mk_outcome None (Some v)
          end), s3.
  split; [|split; [done|split; [|done]]].
  - unfold Static, st_bind at 1. unfold SHIM_PROLOGUE.
    fold (with_exception s None).
    unfold st_bind at 1. rewrite Hbuild.
    unfold st_bind at 1. rewrite Hcb. simpl.
    unfold st_bind at 1. rewrite Hcollect.
    unfold st_bind. rewrite Static_release_eq by congruence.
    rewrite Hargv, Hself, Hrel. unfold Static_exit. rewrite He.
    by destruct (trycatch s2).
  - intros p w Hp Hw. specialize (Hin p w Hp Hw).
    by destruct (sentinel_tag (type w)).
Qed.

(** ** The exception bridge *)

(** X9: an exception set with [shim_exception_set] is pending and is the
    one [shim_exception_get] stores (an empty handle being thrown as the
    runtime's undefined value); after [shim_exception_clear] nothing is
    pending, yet [shim_exception_get] still returns TRUE and leaves an
    empty handle.  [shim_exception_get] never touches the tag of its
    destination. *)
Theorem shim_exception_round_trip s val rval v w :
  live s val v -> live s rval w ->
  let exc := default Undefined (handle v) in
  let s1 := with_exception s (Some exc) in
  let s2 := with_exception s None in
  shim_exception_set val s = Some (tt, s1) /\
  shim_exception_pending s1 = Some (TRUE, s1) /\
  shim_exception_get rval s1
  = Some (TRUE, with_heap s1 (<[rval := Some (mk_val (Some exc) (type w))]>
                                (heap s))) /\
  shim_exception_clear s1 = Some (tt, s2) /\
  shim_exception_pending s2 = Some (FALSE, s2) /\
  shim_exception_get rval s2
  = Some (TRUE, with_heap s2 (<[rval := Some (mk_val None (type w))]>
                                (heap s))).
Proof.
  intros Hv Hw exc s1 s2.
  assert (live s1 rval w) as Hw1 by done.
  assert (live s2 rval w) as Hw2 by done.
  repeat split.
  - unfold shim_exception_set, st_bind. by rewrite (load_live _ _ _ Hv).
  - unfold shim_exception_get, st_bind. simpl.
    by rewrite (set_handle_live s1 rval w _ Hw1).
  - unfold shim_exception_get, st_bind. simpl.
    by rewrite (set_handle_live s2 rval w _ Hw2).
Qed.

(** ** More on unpacking *)

(** X10: arguments beyond the end of the list are not an error either:
    when the list is no longer than [argc] and each of its pairs unpacks
    with success, [shim_unpack] returns TRUE and raises nothing, without
    looking at the remaining arguments; a list that starts with
    SHIM_TYPE_UNKNOWN succeeds at once and changes nothing. *)
Theorem shim_unpack_surplus_arguments args pairs s s' :
  Forall (fun td => fst td <> SHIM_TYPE_UNKNOWN) pairs ->
  length pairs <= argc args ->
  unpacked args 0 pairs s s' ->
  shim_unpack args (head_type pairs) (va_tail pairs) s = Some (TRUE, s') /\
  trycatch s' = trycatch s /\
  (forall ap, shim_unpack args SHIM_TYPE_UNKNOWN ap s = Some (TRUE, s)).
Proof.
  intros Hty Hlen Hun. split; [|split].
  - unfold shim_unpack. apply shim_unpack_loop_all; [done|lia|].
    rewrite Nat.sub_0_r. by rewrite firstn_all2.
  - by eapply unpacked_exception.
  - intros ap. unfold shim_unpack. by destruct (argc args).
Qed.

(** X11: a request to unpack undefined, null, a date, an array, an object
    or a function into a destination that exists is refused whatever the
    argument is, and nothing is written or raised; but the classification
    made on the way stays: an argument that passes the runtime test for
    the type is left tagged with it.  When the argument passes the test
    (or carries the tag already) and there is no destination to read, the
    call has no result: the pointer in the destination is read before the
    type is looked at. *)
Theorem shim_unpack_type_refused_still_tags s arg v ty rval :
  never_unpacked ty = true ->
  live s arg v ->
  (type v = ty \/ is_Some (handle v)) ->
  rval < length (dests s) ->
  (exists s',
     shim_unpack_type arg ty rval s = Some (FALSE, s') /\
     dests s' = dests s /\ trycatch s' = trycatch s /\
     (forall obj test,
        handle v = Some obj -> shim_value_is_test ty = Some test ->
        test obj = true -> live s' arg (mk_val (Some obj) ty))) /\
  (forall missing,
     length (dests s) <= missing ->
     (type v = ty \/
      exists obj test, handle v = Some obj /\
                       shim_value_is_test ty = Some test /\ test obj = true) ->
     shim_unpack_type arg ty missing s = None).
Proof.
  intros Hty Hl Hok Hrval. split.
  - unfold shim_unpack_type, st_bind.
    rewrite (shim_value_is_eq s arg v ty Hl).
    destruct (decide (type v = ty)) as [Heq|Hne].
    + simpl. rewrite (load_live _ _ _ Hl).
      destruct (read_dest_lt s rval Hrval) as [r ->]. exists s.
      split; [by destruct ty|]. repeat split.
      intros obj test Hobj _ _. destruct v; simpl in *; by subst.
    + destruct Hok as [? | [obj Hobj]]; [done|]. rewrite Hobj.
      assert (exists test, shim_value_is_test ty = Some test) as [test Htest]
        by (destruct ty; simpl in *; try done; eauto).
      rewrite Htest.
      destruct (test obj) eqn:Hres; simpl.
      * set (s1 := mk_state _ _ _ _).
        assert (live s1 arg (mk_val (Some obj) ty)) as Hl1.
        { unfold live, s1; simpl. apply list_lookup_insert_eq.
          by eapply lookup_lt_Some. }
        rewrite (load_live _ _ _ Hl1).
        destruct (read_dest_lt s1 rval Hrval) as [r ->]. exists s1.
        split; [by destruct ty|]. repeat split.
        intros obj' test' [= <-] _ _. done.
      * eexists. split; [reflexivity|]. repeat split.
        intros obj' test' [= <-] Ht' Hr'. congruence.
  - intros missing Hmiss Hpass.
    assert (forall s1, dests s1 = dests s -> read_dest missing s1 = None)
      as Hread.
    { intros s1 Hd. unfold read_dest, st_lift. rewrite Hd.
      by rewrite lookup_ge_None_2. }
    unfold shim_unpack_type, st_bind.
    rewrite (shim_value_is_eq s arg v ty Hl).
    destruct (decide (type v = ty)) as [Heq|Hne].
    + simpl. rewrite (load_live _ _ _ Hl). by rewrite Hread.
    + destruct Hpass as [? | (obj & test & Hobj & Htest & Hres)]; [done|].
      rewrite Htest, Hobj, Hres. simpl.
      set (s1 := mk_state _ _ _ _).
      assert (live s1 arg (mk_val (Some obj) ty)) as Hl1.
      { unfold live, s1; simpl. apply list_lookup_insert_eq.
        by eapply lookup_lt_Some. }
      rewrite (load_live _ _ _ Hl1). by rewrite Hread.
Qed.

(** X12: a request for a raw type (boolean, integer, int32, uint32,
    number, external, buffer) succeeds as soon as the cached tag equals
    the type or the runtime test passes; the destination then holds the
    datum extracted from the handle and the argument is tagged with the
    type.  A cached tag is trusted without a test. *)
Theorem shim_unpack_type_extracts s arg v obj ty rval r :
  live s arg v -> handle v = Some obj ->
  extracted ty obj = Some r ->
  (type v = ty \/
   exists test, shim_value_is_test ty = Some test /\ test obj = true) ->
  (ty = SHIM_TYPE_BUFFER -> Buffer_HasInstance obj = true) ->
  rval < length (dests s) ->
  exists s',
    shim_unpack_type arg ty rval s = Some (TRUE, s') /\
    dests s' = <[rval := r]> (dests s) /\
    live s' arg (mk_val (Some obj) ty) /\
    trycatch s' = trycatch s.
Proof.
  intros Hl Hobj Hex Hok Hbuf Hrval.
  assert (exists s1,
            shim_value_is arg ty s = Some (TRUE, s1) /\
            live s1 arg (mk_val (Some obj) ty) /\
            dests s1 = dests s /\ trycatch s1 = trycatch s)
    as (s1 & His & Hl1 & Hd1 & He1).
  { rewrite (shim_value_is_eq s arg v ty Hl).
    destruct (decide (type v = ty)) as [Heq|Hne].
    - exists s. split; [done|]. split; [|done].
      destruct v; simpl in *; by subst.
    - destruct Hok as [? | (test & Htest & Hres)]; [done|].
      rewrite Htest, Hobj, Hres. eexists. split; [reflexivity|].
      split; [|done]. unfold live; simpl.
      apply list_lookup_insert_eq. by eapply lookup_lt_Some. }
  assert (rval < length (dests s1)) as Hrval1 by (by rewrite Hd1).
  exists (mk_state (heap s1) (<[rval := r]> (dests s1)) (trycatch s1) (trace s1)).
  split; [|by rewrite Hd1].
  unfold shim_unpack_type, st_bind at 1. rewrite His. simpl.
  unfold st_bind at 1. rewrite (load_live _ _ _ Hl1).
  destruct (read_dest_lt s1 rval Hrval1) as [r0 Hr0].
  unfold st_bind at 1. rewrite Hr0.
  destruct ty; simpl in Hex; try done; injection Hex as <-;
    unfold shim_external_value, shim_buffer_value, st_bind, deref, st_lift,
      write_dest, st_ret; simpl;
    rewrite ?(load_live _ _ _ Hl1); simpl;
    rewrite ?Hbuf by done;
    by rewrite decide_True.
Qed.

(** X13: the names [shim_type_str] gives are pairwise different: the
    type named in an error message is the type that was asked for. *)
Theorem shim_type_str_injective t1 t2 :
  shim_type_str t1 = shim_type_str t2 -> t1 = t2.
Proof. destruct t1, t2; simpl; intros H; try done; discriminate H. Qed.

(** ** Values handed to the runtime, clones and persistents *)

Section ObjectProperties.
Context {ORT : ObjectRuntime RT}.

Lemma shim_vals_to_handle_eq s arg h :
  handle_passed s arg = Some h -> shim_vals_to_handle arg s = Some (h, s).
Proof.
  unfold handle_passed, shim_vals_to_handle. destruct arg as [p|].
  - unfold st_bind, load. destruct (heap s !! p) as [[v|]|]; try done.
    intros [= <-]. by destruct (type v).
  - by intros [= <-].
Qed.

Lemma shim_vals_to_handles_loop_eq s argv n :
  forall i,
    i + n <= length argv ->
    Forall (fun arg => is_Some (handle_passed s arg)) argv ->
    exists hs,
      shim_vals_to_handles_loop argv (seq i n) s = Some (hs, s) /\
      length hs = n /\
      forall j arg, j < n -> argv !! (i + j) = Some arg ->
                    Some (hs !! j) = Some (handle_passed s arg).
Proof.
  induction n as [|n IH]; intros i Hlen Hall.
  - exists []. repeat split; try done. intros j arg Hj. lia.
  - destruct (argv !! i) as [arg|] eqn:Harg;
      [|apply lookup_ge_None in Harg; lia].
    assert (is_Some (handle_passed s arg)) as [h Hh].
    { rewrite Forall_forall in Hall. apply Hall.
      by eapply list_elem_of_lookup_2. }
    destruct (IH (S i)) as (hs & Hrun & Hl & Hidx); [lia|done|].
    exists (h :: hs). simpl. unfold st_bind, st_lift. rewrite Harg.
    rewrite (shim_vals_to_handle_eq _ _ _ Hh). rewrite Hrun.
    repeat split; [simpl; by rewrite Hl|].
    intros [|j] arg' Hj Harg'.
    + rewrite Nat.add_0_r in Harg'. simpl. congruence.
    + simpl. apply Hidx; [lia|].
      by replace (S i + j) with (i + S j) by lia.
Qed.

(** X14: [shim_vals_to_handles] returns one handle for each of the
    [argc] entries, in order, and changes nothing.  A NULL entry is
    passed as the runtime's null, and a value tagged undefined or null as
    the runtime's constant, not as its own (empty) handle.  This is also
    the translation the trampoline applies to the return slot: both agree
    wherever the trampoline's assert lets the value through. *)
Theorem shim_vals_to_handles_translation s argc argv :
  argc <= length argv ->
  Forall (fun arg => is_Some (handle_passed s arg)) argv ->
  exists hs,
    shim_vals_to_handles argc argv s = Some (hs, s) /\
    length hs = argc /\
    (forall i, i < argc -> argv !! i = Some None ->
               hs !! i = Some (Some Null)) /\
    (forall i p v, i < argc -> argv !! i = Some (Some p) -> live s p v ->
                   hs !! i
                   = Some match type v with
                          | SHIM_TYPE_UNDEFINED => Some Undefined
                          | SHIM_TYPE_NULL => Some Null
                          | _ => handle v
                          end) /\
    (forall sargs c,
       Static_collect sargs s = Some (c, s) <->
       handle_passed s (ret sargs) = Some (Some c)).
Proof.
  intros Hlen Hall.
  destruct (shim_vals_to_handles_loop_eq s argv argc 0) as (hs & Hrun & Hl & Hidx);
    [lia|done|].
  exists hs. split; [done|]. split; [done|]. repeat split.
  - intros i Hi Harg. specialize (Hidx i None Hi Harg). simpl in Hidx.
    congruence.
  - intros i p v Hi Harg Hv. specialize (Hidx i (Some p) Hi Harg).
    simpl in Hidx. unfold live in Hv. rewrite Hv in Hidx. congruence.
  - unfold Static_collect, handle_passed. destruct (ret sargs) as [r|].
    + unfold st_bind, load. destruct (heap s !! r) as [[v|]|]; try done.
      destruct (type v); unfold st_ret, st_lift;
        try (by intros [= <-]);
        destruct (handle v); try done; by intros [= <-].
    + unfold st_ret. by intros [= <-].
  - unfold Static_collect, handle_passed. destruct (ret sargs) as [r|].
    + unfold st_bind, load. destruct (heap s !! r) as [[v|]|]; try done.
      destruct (type v); unfold st_ret, st_lift;
        try (by intros [= <-]);
        destruct (handle v); try done; by intros [= <-].
    + unfold st_ret. by intros [= <-].
Qed.

(** X15: [shim_persistent_new] (and likewise [shim_obj_clone]) gives a
    fresh cell with the handle of the source under the tag unknown,
    whatever the source was classified as, and leaves the source alone;
    [shim_persistent_dispose] on the result frees that cell and nothing
    else, so that every cell that existed before is as it was. *)
Theorem shim_persistent_new_dispose s val v :
  live s val v -> 2 <= length (heap s) ->
  exists p s1 s2,
    shim_persistent_new val s = Some (p, s1) /\
    shim_obj_clone val s = Some (p, s1) /\
    live s1 p (mk_val (handle v) SHIM_TYPE_UNKNOWN) /\
    live s1 val v /\ p <> val /\
    shim_persistent_dispose p s1 = Some (tt, s2) /\
    freed s2 p /\
    (forall q, q <> p -> heap s2 !! q = heap s !! q).
Proof.
  intros Hv Hlen.
  assert (val < length (heap s)) as Hval by (by eapply lookup_lt_Some).
  set (p := length (heap s)).
  set (cell := mk_val (handle v) SHIM_TYPE_UNKNOWN).
  set (s1 := mk_state (heap s ++ [Some cell]) (dests s) (trycatch s) (trace s)).
  assert (live s1 p cell) as Hp.
  { unfold live, s1, p; simpl. rewrite lookup_app_r by lia.
    by rewrite Nat.sub_diag. }
  assert (is_static p = false) as Hst by (apply Nat.ltb_ge; unfold p; lia).
  exists p, s1, (mk_state (<[p := None]> (heap s1)) (dests s1) (trycatch s1)
                          (trace s1 ++ [EvFree p])).
  repeat split.
  - unfold shim_persistent_new, st_bind. by rewrite (load_live _ _ _ Hv).
  - unfold shim_obj_clone, st_bind. by rewrite (load_live _ _ _ Hv).
  - done.
  - unfold live, s1; simpl. by rewrite lookup_app_l.
  - unfold p. lia.
  - unfold shim_persistent_dispose, st_bind. rewrite (load_live _ _ _ Hp).
    unfold free. rewrite Hst. unfold live in Hp. by rewrite Hp.
  - unfold freed; simpl. apply list_lookup_insert_eq.
    rewrite length_app. simpl. unfold p. lia.
  - intros q Hq. simpl. rewrite list_lookup_insert_ne by done.
    destruct (decide (q < length (heap s))) as [Hlt|Hge].
    + by rewrite lookup_app_l.
    + rewrite lookup_ge_None_2 by (rewrite length_app; simpl; unfold p in Hq; lia).
      symmetry. apply lookup_ge_None_2. lia.
Qed.

(** X16: [shim_persistent_dispose] frees the cell whatever its tag, where
    [shim_value_release] frees nothing under the tags undefined and null;
    and it must not be given a sentinel, which is not a malloc'd
    object. *)
Theorem shim_persistent_dispose_any_tag s p w :
  live s p w -> is_static p = false -> sentinel_tag (type w) = true ->
  (exists s', shim_persistent_dispose p s = Some (tt, s') /\ freed s' p /\
              count (is_free_of p) (trace s')
              = count (is_free_of p) (trace s) + 1) /\
  (exists s', shim_value_release (Some p) s = Some (tt, s') /\ live s' p w /\
              count (is_free_of p) (trace s')
              = count (is_free_of p) (trace s)) /\
  (forall s0, shim_persistent_dispose shim_undefined s0 = None) /\
  (forall s0, shim_persistent_dispose shim_null s0 = None).
Proof.
  intros Hl Hst Htag. repeat split.
  - eexists. split; [|split].
    + unfold shim_persistent_dispose, st_bind. rewrite (load_live _ _ _ Hl).
      unfold free. rewrite Hst. unfold live in Hl. by rewrite Hl.
    + unfold freed; simpl. apply list_lookup_insert_eq.
      by eapply lookup_lt_Some.
    + simpl. rewrite count_app. simpl. rewrite Nat.eqb_refl. lia.
  - eexists. split; [by apply shim_value_release_skip with w|].
    split; [done|]. simpl. rewrite count_app. simpl. lia.
  - intros s0. unfold shim_persistent_dispose, st_bind, load, free.
    by destruct (heap s0 !! shim_undefined) as [[?|]|].
  - intros s0. unfold shim_persistent_dispose, st_bind, load, free.
    by destruct (heap s0 !! shim_null) as [[?|]|].
Qed.

(** ** Object properties and function tables *)

(** X17: [shim_obj_get_prop_id] and [shim_obj_get_prop_name] reset the
    tag of their destination to unknown, while [shim_array_get] stores
    the element and leaves the old tag: [shim_value_is] on the destination for that old tag then answers
    TRUE from the cache, without a test of the element fetched.  All
    three return TRUE whatever was found. *)
Theorem shim_array_get_keeps_tag s arr a jsarr idx rval w :
  live s arr a -> handle a = Some jsarr -> live s rval w ->
  let elt := Object_Get_index (OBJ_TO_ARRAY jsarr) idx in
  let prop := Object_Get_index (OBJ_TO_OBJECT jsarr) idx in
  let s1 := with_heap s (<[rval := Some (mk_val (Some elt) (type w))]> (heap s)) in
  let s2 := with_heap s (<[rval := Some (mk_val (Some prop) SHIM_TYPE_UNKNOWN)]>
                           (heap s)) in
  shim_array_get arr idx rval s = Some (TRUE, s1) /\
  shim_value_is rval (type w) s1 = Some (TRUE, s1) /\
  shim_obj_get_prop_id arr idx rval s = Some (TRUE, s2) /\
  live s2 rval (mk_val (Some prop) SHIM_TYPE_UNKNOWN) /\
  (forall name,
     shim_obj_get_prop_name arr name rval s
     = Some (TRUE,
             with_heap s
               (<[rval := Some (mk_val
                                  (Some (Object_Get (OBJ_TO_OBJECT jsarr)
                                           (String_NewSymbol name)))
                                  SHIM_TYPE_UNKNOWN)]> (heap s)))).
Proof.
  intros Ha Hjs Hw elt prop s1 s2.
  assert (live s1 rval (mk_val (Some elt) (type w))) as Hl1
    by (by eapply live_insert_eq).
  assert (live s2 rval (mk_val (Some prop) SHIM_TYPE_UNKNOWN)) as Hl2
    by (by eapply live_insert_eq).
  repeat split; try done.
  - unfold shim_array_get, st_bind. rewrite (load_live _ _ _ Ha).
    unfold deref, st_lift. rewrite Hjs.
    by rewrite (set_handle_live _ _ _ _ Hw).
  - rewrite (shim_value_is_eq s1 rval _ (type w) Hl1). simpl.
    by rewrite decide_True.
  - unfold shim_obj_get_prop_id, st_bind. rewrite (load_live _ _ _ Ha).
    unfold deref, st_lift. rewrite Hjs.
    rewrite (set_handle_live _ _ _ _ Hw).
    erewrite set_type_live by (by eapply live_insert_eq).
    unfold st_ret, s2, with_heap; simpl. by rewrite list_insert_insert_eq.
  - intros name.
    unfold shim_obj_get_prop_name, st_bind. rewrite (load_live _ _ _ Ha).
    unfold deref, st_lift. rewrite Hjs.
    rewrite (set_handle_live _ _ _ _ Hw).
    erewrite set_type_live by (by eapply live_insert_eq).
    unfold st_ret, with_heap; simpl. by rewrite list_insert_insert_eq.
Qed.

Lemma fspec_accepted_name jsrecv cur :
  fspec_accepted jsrecv cur = true ->
  exists name,
    fs_name cur = Some name /\
    Object_Set (OBJ_TO_OBJECT jsrecv) (String_NewSymbol name)
               (fspec_function cur name) = true.
Proof.
  unfold fspec_accepted. destruct (fs_name cur) as [name|]; [|done]. eauto.
Qed.

(** The function value is made, offered to the receiver, and the state
    is then the one with the new cell. *)
Lemma shim_obj_set_funcs_offer s recv o jsrecv cur name :
  live s recv o -> handle o = Some jsrecv ->
  let func := length (heap s) in
  let s1 := with_heap s
              (heap s ++ [Some (mk_val (Some (fspec_function cur name))
                                       SHIM_TYPE_UNKNOWN)]) in
  shim_func_new (fs_cfunc cur) (fs_nargs cur) (fs_flags cur) name
                (fs_data cur) s = Some (func, s1) /\
  shim_obj_set_prop_name recv name func s1
  = Some (Object_Set (OBJ_TO_OBJECT jsrecv) (String_NewSymbol name)
                     (fspec_function cur name), s1).
Proof.
  intros Ho Hjs func s1. split; [done|].
  assert (recv < length (heap s)) as Hrecv by (by eapply lookup_lt_Some).
  assert (live s1 recv o) as Ho1
    by (unfold live, s1; simpl; by rewrite lookup_app_l).
  assert (live s1 func (mk_val (Some (fspec_function cur name)) SHIM_TYPE_UNKNOWN))
    as Hf.
  { unfold live, s1, func; simpl. rewrite lookup_app_r by lia.
    by rewrite Nat.sub_diag. }
  unfold shim_obj_set_prop_name, st_bind.
  rewrite (load_live _ _ _ Ho1). unfold deref, st_lift. rewrite Hjs.
  by rewrite (load_live _ _ _ Hf).
Qed.

Lemma shim_obj_set_funcs_loop_prefix recv o jsrecv funcs k :
  forall fuel i s,
    live s recv o -> handle o = Some jsrecv -> 2 <= length (heap s) ->
    k <= fuel ->
    (forall j, j < k ->
       exists cur, funcs !! (i + j) = Some cur /\
                   fspec_accepted jsrecv cur = true) ->
    exists sk,
      heap sk = heap s ++ replicate k None /\
      dests sk = dests s /\ trycatch sk = trycatch s /\
      shim_obj_set_funcs_loop fuel recv funcs i s
      = shim_obj_set_funcs_loop (fuel - k) recv funcs (i + k) sk.
Proof.
  induction k as [|k IH]; intros fuel i s Ho Hjs Hlen Hfuel Hacc.
  - exists s. rewrite app_nil_r, Nat.sub_0_r, Nat.add_0_r. done.
  - destruct fuel as [|fuel]; [lia|].
    destruct (Hacc 0) as (cur & Hcur & Hok); [lia|].
    rewrite Nat.add_0_r in Hcur.
    apply fspec_accepted_name in Hok as (name & Hname & Hset).
    destruct (shim_obj_set_funcs_offer s recv o jsrecv cur name Ho Hjs)
      as [Hnew Hoffer].
    set (func := length (heap s)) in *.
    set (cell := mk_val (Some (fspec_function cur name)) SHIM_TYPE_UNKNOWN) in *.
    set (s1 := with_heap s (heap s ++ [Some cell])) in *.
    assert (live s1 func cell) as Hf.
    { unfold live, s1, func; simpl. rewrite lookup_app_r by lia.
      by rewrite Nat.sub_diag. }
    assert (is_static func = false) as Hst
      by (apply Nat.ltb_ge; unfold func; lia).
    pose proof (shim_value_release_eq s1 func cell Hf Hst) as Hrel.
    simpl in Hrel.
    set (s2 := mk_state _ _ _ _) in Hrel.
    assert (heap s2 = heap s ++ [None]) as Hheap2.
    { unfold s2; simpl. unfold func.
      rewrite insert_app_r_alt by lia. by rewrite Nat.sub_diag. }
    assert (live s2 recv o) as Ho2.
    { unfold live. rewrite Hheap2. rewrite lookup_app_l; [done|].
      by eapply lookup_lt_Some. }
    destruct (IH fuel (S i) s2 Ho2 Hjs) as (sk & Hheap & Hd & He & Hrun).
    { rewrite Hheap2, length_app. simpl. lia. }
    { lia. }
    { intros j Hj. destruct (Hacc (S j)) as (c & Hc & Hcok); [lia|].
      exists c. split; [|done]. by replace (S i + j) with (i + S j) by lia. }
    exists sk. split; [|split; [done|split; [done|]]].
    + rewrite Hheap, Hheap2, <- app_assoc. done.
    + replace (i + S k) with (S i + k) by lia.
      replace (S fuel - S k) with (fuel - k) by lia.
      rewrite <- Hrun. simpl.
      unfold st_bind at 1, st_lift. rewrite Hcur, Hname.
      unfold st_bind at 1. rewrite Hnew.
      unfold st_bind at 1. rewrite Hoffer, Hset. simpl.
      unfold st_bind at 1. by rewrite Hrel.
Qed.

(** X18: when the runtime accepts every function of the table,
    [shim_obj_set_funcs] returns TRUE having allocated one value for each
    entry before the terminator and released each of them: the heap ends
    with those cells freed and nothing else changed. *)
Theorem shim_obj_set_funcs_balanced s recv o jsrecv funcs n term :
  live s recv o -> handle o = Some jsrecv -> 2 <= length (heap s) ->
  funcs !! n = Some term -> fs_name term = None ->
  (forall j, j < n ->
     exists cur, funcs !! j = Some cur /\ fspec_accepted jsrecv cur = true) ->
  exists s',
    shim_obj_set_funcs recv funcs s = Some (TRUE, s') /\
    heap s' = heap s ++ replicate n None /\
    dests s' = dests s /\ trycatch s' = trycatch s.
Proof.
  intros Ho Hjs Hlen Hterm Hnone Hacc.
  assert (n < length funcs) as Hn by (by eapply lookup_lt_Some).
  destruct (shim_obj_set_funcs_loop_prefix recv o jsrecv funcs n
              (length funcs) 0 s Ho Hjs Hlen) as (sk & Hheap & Hd & He & Hrun);
    [lia|done|].
  exists sk. split; [|done].
  unfold shim_obj_set_funcs. rewrite Hrun. simpl.
  destruct (length funcs - n); simpl;
    unfold st_bind, st_lift; by rewrite Hterm, Hnone.
Qed.

(** X19: when the runtime refuses the function of entry [k] (and
    accepted the ones before), [shim_obj_set_funcs] returns FALSE at once
    without releasing the value it had made for that entry: the cells of
    the earlier entries are freed, the cell of entry [k] is still
    allocated, and the later entries are not looked at. *)
Theorem shim_obj_set_funcs_refused s recv o jsrecv funcs k cur name :
  live s recv o -> handle o = Some jsrecv -> 2 <= length (heap s) ->
  funcs !! k = Some cur -> fs_name cur = Some name ->
  fspec_accepted jsrecv cur = false ->
  (forall j, j < k ->
     exists c, funcs !! j = Some c /\ fspec_accepted jsrecv c = true) ->
  exists s',
    shim_obj_set_funcs recv funcs s = Some (FALSE, s') /\
    heap s'
    = heap s ++ replicate k None
        ++ [Some (mk_val (Some (fspec_function cur name)) SHIM_TYPE_UNKNOWN)] /\
    live s' (length (heap s) + k)
         (mk_val (Some (fspec_function cur name)) SHIM_TYPE_UNKNOWN) /\
    dests s' = dests s /\ trycatch s' = trycatch s.
Proof.
  intros Ho Hjs Hlen Hcur Hname Hrefused Hacc.
  assert (k < length funcs) as Hk by (by eapply lookup_lt_Some).
  destruct (shim_obj_set_funcs_loop_prefix recv o jsrecv funcs k
              (length funcs) 0 s Ho Hjs Hlen) as (sk & Hheap & Hd & He & Hrun);
    [lia|done|].
  assert (live sk recv o) as Hok.
  { unfold live. rewrite Hheap. rewrite lookup_app_l; [done|].
    by eapply lookup_lt_Some. }
  destruct (shim_obj_set_funcs_offer sk recv o jsrecv cur name Hok Hjs)
    as [Hnew Hoffer].
  unfold fspec_accepted in Hrefused. rewrite Hname in Hrefused.
  eexists. split; [|split; [|split]].
  - unfold shim_obj_set_funcs. rewrite Hrun. simpl.
    destruct (length funcs - k) as [|fuel] eqn:Hfuel; [lia|]. simpl.
    unfold st_bind at 1, st_lift. rewrite Hcur, Hname.
    unfold st_bind at 1. rewrite Hnew.
    unfold st_bind at 1. rewrite Hoffer, Hrefused. simpl. reflexivity.
  - simpl. rewrite Hheap. by rewrite <- app_assoc.
  - unfold live; simpl. rewrite Hheap.
    rewrite lookup_app_r by (rewrite length_app, length_replicate; lia).
    rewrite length_app, length_replicate.
    by replace (length (heap s) + k - (length (heap s) + k)) with 0 by lia.
  - done.
Qed.

(** ** Module set-up *)

(** X20: [shim_module_initialize] starts with nothing caught and runs the
    module's entry point on the two automatic values.  If the entry point
    reports success the shim raises nothing; if it reports failure, an
    exception is pending afterwards in every case: the one the entry
    point raised, kept as it is, or else the shim's own "Failed to
    initialize module". *)
Theorem shim_module_initialize_exception init exports module te tm s ok s2 :
  let sexport := length (heap s) in
  let smodule := S (length (heap s)) in
  let s1 := mk_state (heap s ++ [Some (mk_val (Some exports) te);
                                 Some (mk_val (Some module) tm)])
                     (dests s) None (trace s) in
  init sexport smodule s1 = Some (ok, s2) ->
  (exists v, live s2 sexport v) -> (exists v, live s2 smodule v) ->
  exists s3,
    shim_module_initialize init exports module te tm s = Some (tt, s3) /\
    trycatch s3
    = (if ok then trycatch s2
       else match trycatch s2 with
            | Some exc => Some exc
            | None => Some (Exception_Error
                              (String_New "Failed to initialize module"))
            end) /\
    freed s3 sexport /\ freed s3 smodule.
Proof.
  intros sexport smodule s1 Hinit [ve Hve] [vm Hvm].
  set (e3 := if ok then trycatch s2
             else match trycatch s2 with
                  | Some exc => Some exc
                  | None => Some (Exception_Error
                                    (String_New "Failed to initialize module"))
                  end).
  assert (sexport <> smodule) as Hne by (unfold sexport, smodule; lia).
  exists (mk_state (<[sexport := None]> (<[smodule := None]> (heap s2)))
                   (dests s2) e3 (trace s2)).
  assert (sexport < length (heap s2)) as Hle by (by eapply lookup_lt_Some).
  assert (smodule < length (heap s2)) as Hlm by (by eapply lookup_lt_Some).
  split; [|split; [done|split]].
  - unfold shim_module_initialize, st_bind at 1. unfold SHIM_PROLOGUE.
    unfold st_bind at 1, malloc. simpl.
    unfold st_bind at 1. simpl.
    rewrite length_app. simpl. rewrite Nat.add_1_r.
    rewrite <- app_assoc. simpl.
    fold sexport. change (S sexport) with smodule. fold s1.
    unfold st_bind at 1. rewrite Hinit.
    assert (forall s', heap s' = heap s2 -> dests s' = dests s2 ->
                       trace s' = trace s2 -> trycatch s' = e3 ->
              st_bind (stack_pop smodule) (fun _ => stack_pop sexport) s'
              = Some (tt, mk_state (<[sexport := None]>
                                      (<[smodule := None]> (heap s2)))
                                   (dests s2) e3 (trace s2))) as Hpop.
    { intros s' Hh Hd Ht He. unfold st_bind, stack_pop. rewrite Hh.
      unfold live, loc in *. rewrite Hvm. simpl.
      rewrite list_lookup_insert_ne by done. rewrite Hve.
      by rewrite Hd, Ht, He. }
    unfold st_bind at 1.
    destruct ok; simpl.
    + by apply Hpop.
    + unfold st_bind at 1, shim_exception_pending.
      destruct (trycatch s2) as [exc|] eqn:Hexc; simpl.
      * by apply Hpop.
      * by apply Hpop.
  - unfold freed; simpl. by apply list_lookup_insert_eq; rewrite length_insert.
  - unfold freed; simpl. rewrite list_lookup_insert_ne by done.
    by apply list_lookup_insert_eq.
Qed.

End ObjectProperties.

End Properties.

(** * The code on concrete inputs *)

Section Runs.
Import Toy.

(** Evaluates the left-hand side of an equation and compares. *)
Ltac run :=
  match goal with
  | |- ?l = _ => let l' := eval vm_compute in l in change l with l'
  end; reflexivity.

(** C1, counterexample: a callback that never touches the return slot
    makes the trampoline return the runtime's undefined value, which is
    not its null value. *)
Lemma Static_unset_slot_counterexample :
  exists s3,
    Static true (call_with cb_noop) initial_state
    = Some (mk_outcome None (Some VUndefined), s3) /\
    (Undefined : value) <> Null.
Proof. eexists. split; [run | discriminate]. Qed.

Lemma Static_return_slot_default_witness :
  (exists s3,
     Static true (call_with cb_noop) initial_state
     = Some (mk_outcome None (Some Undefined), s3)) /\
  (exists s3,
     Static true (call_with cb_null_slot) initial_state
     = Some (mk_outcome None (Some Null), s3)) /\
  (exists s3,
     Static true (call_with cb_null_sentinel) initial_state
     = Some (mk_outcome None (Some Null), s3)).
Proof.
  split; [|split].
  - pose proof (Static_return_slot_default (RT := runtime) true
                  (call_with cb_noop) initial_state
                  built_frame built_state true built_frame built_state) as H.
    cbv zeta in H. destruct H as (_ & Hsame & _).
    + simpl; lia.
    + run.
    + run.
    + repeat split; repeat constructor; eexists; reflexivity.
    + reflexivity.
    + apply (Hsame shim__undefined); reflexivity.
  - pose proof (Static_return_slot_default (RT := runtime) true
                  (call_with cb_null_slot) initial_state
                  built_frame built_state true
                  (mk_args 2 [3; 4] None 2 0) built_state) as H.
    cbv zeta in H. destruct H as (_ & _ & Hnull & _).
    + simpl; lia.
    + run.
    + run.
    + repeat split; repeat constructor; eexists; reflexivity.
    + reflexivity.
    + apply Hnull. reflexivity.
  - pose proof (Static_return_slot_default (RT := runtime) true
                  (call_with cb_null_sentinel) initial_state
                  built_frame built_state true
                  (mk_args 2 [3; 4] (Some shim_null) 2 0) built_state) as H.
    cbv zeta in H. destruct H as (_ & _ & _ & Hslot).
    + simpl; lia.
    + run.
    + run.
    + repeat split; repeat constructor; eexists; reflexivity.
    + reflexivity.
    + apply (Hslot shim_null shim__null); reflexivity.
Defined.

Lemma shim_value_to_string_falls_through_witness :
  shim_value_to 2 SHIM_TYPE_STRING 5 number_object_state
  = Some (FALSE,
          with_heap number_object_state
            (<[5 := Some (mk_val (Some (VString "42")) SHIM_TYPE_UNKNOWN)]>
               (heap number_object_state))).
Proof.
  apply (shim_value_to_string_falls_through (RT := runtime) number_object_state 2 5
           number_cell empty_cell (VNumber 42)).
  - reflexivity.
  - reflexivity.
  - discriminate.
  - reflexivity.
Defined.

(** C3 at the failing input: the call f(42, undefined) of a function
    whose callback asks whether its second argument is undefined.  The
    cell of that argument, allocated by the trampoline at address 4, is
    still allocated after the trampoline has exited; the cells of the
    receiver and of the first argument are freed. *)
Lemma Static_leaks_retagged_cells_witness :
  exists out s3,
    Static true (call_with cb_classify_fail) initial_state = Some (out, s3) /\
    heap initial_state !! 4 = None /\
    live s3 4 (@mk_val runtime (Some VUndefined) SHIM_TYPE_UNDEFINED) /\
    heap s3 !! 2 = Some None /\ heap s3 !! 3 = Some None.
Proof.
  destruct (Static_leaks_retagged_cells (RT := runtime) true
              (call_with cb_classify_fail) initial_state built_frame
              built_state false built_frame classified_state)
    as (out & s3 & evs & Hrun & _ & _ & _ & Hfresh & _ & Hfreed & Hleak).
  - simpl; lia.
  - run.
  - run.
  - repeat split; repeat constructor; eexists; reflexivity.
  - exists (VUndefined, classified_state). reflexivity.
  - exists out, s3. split; [exact Hrun|].
    assert (forall p, p = 2 \/ p = 3 \/ p = 4 ->
                      p ∈ argv built_frame ++ [self built_frame]) as Hin.
    { intros p [-> | [-> | ->]]; simpl.
      - apply list_elem_of_further, list_elem_of_further, list_elem_of_here.
      - apply list_elem_of_here.
      - apply list_elem_of_further, list_elem_of_here. }
    split; [reflexivity|]. split; [|split].
    + apply (Hleak 4 (@mk_val runtime (Some VUndefined) SHIM_TYPE_UNDEFINED));
        [apply Hin; auto | reflexivity | reflexivity].
    + apply (Hfreed 2 (@mk_val runtime (Some (VObject 1)) SHIM_TYPE_UNKNOWN));
        [apply Hin; auto | reflexivity | reflexivity].
    + apply (Hfreed 3 (@mk_val runtime (Some (VNumber 42)) SHIM_TYPE_UNKNOWN));
        [apply Hin; auto | reflexivity | reflexivity].
Defined.

(** C4, counterexample: asked twice whether the number 42 is a string,
    [shim_value_is] answers FALSE twice and makes the runtime test
    twice. *)
Lemma shim_value_is_twice_counterexample :
  exists s1 s2,
    shim_value_is 2 SHIM_TYPE_STRING number_cell_state = Some (FALSE, s1) /\
    shim_value_is 2 SHIM_TYPE_STRING s1 = Some (FALSE, s2) /\
    count is_test (trace s2) = count is_test (trace number_cell_state) + 2.
Proof.
  eexists _, _. split; [run|]. split; [run|]. reflexivity.
Qed.

Lemma shim_value_is_twice_witness :
  exists b s1 s2,
    shim_value_is 2 SHIM_TYPE_NUMBER number_cell_state = Some (b, s1) /\
    shim_value_is 2 SHIM_TYPE_NUMBER s1 = Some (b, s2) /\
    (SHIM_TYPE_UNKNOWN = SHIM_TYPE_NUMBER ->
     b = TRUE /\ s1 = number_cell_state /\ s2 = number_cell_state) /\
    (b = TRUE ->
       s2 = s1 /\
       live s1 2 (mk_val (Some (VNumber 42)) SHIM_TYPE_NUMBER) /\
       count is_test (trace s2) <= count is_test (trace number_cell_state) + 1) /\
    (b = FALSE ->
       heap s2 = heap number_cell_state /\
       count is_test (trace s2)
       = count is_test (trace number_cell_state) + 2).
Proof.
  apply (shim_value_is_twice (RT := runtime) number_cell_state 2
           number_cell SHIM_TYPE_NUMBER).
  - reflexivity.
  - right; right. eexists; reflexivity.
Defined.


Lemma shim_unpack_type_structured_witness :
  (exists s',
     shim_unpack_type 2 SHIM_TYPE_OBJECT 0 object_frame_state = Some (FALSE, s') /\
     dests s' = dests object_frame_state) /\
  (forall rval' s',
     shim_unpack_type 2 SHIM_TYPE_OBJECT rval' object_frame_state
     <> Some (TRUE, s')).
Proof.
  apply (shim_unpack_type_structured (RT := runtime) object_frame_state 2
           object_cell).
  - right; left; reflexivity.
  - reflexivity.
  - right. eexists; reflexivity.
  - simpl; lia.
Defined.

Lemma Static_exception_precedence_witness :
  exists s3,
    Static true (call_with cb_throw_and_return) initial_state
    = Some (mk_outcome (Some (VError SHIM_ERR_ERROR "boom 7")) None, s3) /\
    trycatch s3 = Some (VError SHIM_ERR_ERROR "boom 7").
Proof.
  apply (Static_exception_precedence (RT := runtime) true (call_with cb_throw_and_return)
           initial_state built_frame built_state true thrown_frame
           thrown_state (VError SHIM_ERR_ERROR "boom 7") 6 (VNumber 7)).
  - simpl; lia.
  - run.
  - run.
  - repeat split; repeat constructor; eexists; reflexivity.
  - reflexivity.
  - reflexivity.
  - reflexivity.
Defined.

Lemma shim_value_release_sentinel_witness :
  let s' := with_trace initial_state [EvRelease (Some shim_undefined)] in
  shim_value_release (Some shim_undefined) initial_state = Some (tt, s') /\
  heap s' = heap initial_state /\
  shim_value_is shim_undefined SHIM_TYPE_UNDEFINED s' = Some (TRUE, s') /\
  shim_value_is shim_null SHIM_TYPE_NULL s' = Some (TRUE, s').
Proof.
  destruct (shim_value_release_sentinel (RT := runtime) initial_state
              shim_undefined shim__undefined)
    as (Hrel & Hheap & _ & _ & Hundef & Hnull).
  - reflexivity.
  - reflexivity.
  - split; [exact Hrel|]. split; [exact Hheap|].
    split; [apply Hundef | apply Hnull]; reflexivity.
Defined.

Lemma shim_format_error_bounded_witness :
  String.length long_message = 600 /\
  shim_throw_type_error "%s" [FmtStr long_message] initial_state
  = Some (tt, with_exception initial_state
                (Some (VError SHIM_ERR_TYPE (substring 0 511 long_message)))) /\
  String.length (vsnprintf SHIM_ERROR_LENGTH long_message) = 512.
Proof.
  destruct (shim_format_error_bounded (RT := runtime) SHIM_ERR_TYPE "%s"
              [FmtStr long_message] long_message initial_state)
    as (_ & Hlong & _ & _ & Hthrow & _).
  - run.
  - split; [reflexivity|]. split; [exact Hthrow|].
    destruct Hlong as [_ Hlen]; [change (512 <= 600); lia | exact Hlen].
Defined.

(** C10, counterexample: the list asks for two arguments and the frame
    has one, an object; the number asked first is refused, and
    [shim_unpack] returns FALSE with a type error pending. *)
Lemma shim_unpack_missing_arguments_counterexample :
  argc object_frame < length number_string_pairs /\
  exists s',
    shim_unpack object_frame (head_type number_string_pairs)
      (va_tail number_string_pairs) object_frame_state
    = Some (FALSE, s') /\
    trycatch s'
    = Some (VError SHIM_ERR_TYPE "Argument 0 not of type SHIM_TYPE_NUMBER").
Proof.
  split; [simpl; lia|]. eexists. split; [run | reflexivity].
Qed.

Lemma shim_unpack_missing_arguments_witness :
  shim_unpack number_frame SHIM_TYPE_NUMBER
    [VaDest 0; VaType SHIM_TYPE_STRING; VaDest 1; VaType SHIM_TYPE_UNKNOWN]
    number_frame_state
  = Some (TRUE, number_frame_unpacked) /\
  trycatch number_frame_unpacked = None /\
  dests number_frame_unpacked !! 1 = Some RawUninit.
Proof.
  destruct (shim_unpack_missing_arguments (RT := runtime) number_frame
              number_string_pairs number_frame_state number_frame_unpacked)
    as (Hrun & Hexc & _).
  - repeat constructor; discriminate.
  - simpl; lia.
  - apply unpacked_cons with (s1 := number_frame_unpacked);
      [run | apply unpacked_nil].
  - split; [exact Hrun|]. split; [exact Hexc | reflexivity].
Defined.

(** ** The further properties on concrete inputs *)

Import ToyObjects.

Lemma shim_value_to_then_is_witness :
  shim_value_is 5 SHIM_TYPE_NUMBER number_converted_state
  = Some (TRUE, number_converted_state).
Proof.
  destruct (shim_value_to_then_is (RT := runtime) 2 SHIM_TYPE_NUMBER 5
              number_object_state number_converted_state)
    as (_ & His & _).
  - run.
  - exact His.
Defined.

Lemma shim_value_to_sentinel_tag_witness :
  let s' := with_heap number_object_state
              (<[5 := Some undefined_classified_cell]>
                 (heap number_object_state)) in
  shim_value_to 2 SHIM_TYPE_UNDEFINED 5 number_object_state = Some (TRUE, s') /\
  shim_value_release (Some 5) s'
  = Some (tt, with_trace s' (trace s' ++ [EvRelease (Some 5)])).
Proof.
  apply (shim_value_to_sentinel_tag (RT := runtime) number_object_state 2 5
           number_cell empty_cell SHIM_TYPE_UNDEFINED).
  - reflexivity.
  - reflexivity.
  - discriminate.
  - left; reflexivity.
Defined.

Lemma shim_value_is_last_tag_wins_witness :
  exists s',
    shim_value_is_alternating 2 SHIM_TYPE_NUMBER SHIM_TYPE_INT32
      number_cell_state
    = Some ((TRUE, TRUE, TRUE), s') /\
    live s' 2 (mk_val (Some (VNumber 42)) SHIM_TYPE_NUMBER) /\
    count is_test (trace s') = count is_test (trace number_cell_state) + 3.
Proof.
  apply (shim_value_is_last_tag_wins (RT := runtime) number_cell_state 2
           number_cell (VNumber 42) SHIM_TYPE_NUMBER SHIM_TYPE_INT32
           IsNumber IsInt32).
  - reflexivity.
  - reflexivity.
  - discriminate.
  - discriminate.
  - reflexivity.
  - reflexivity.
  - reflexivity.
  - reflexivity.
Defined.

Lemma shim_value_is_sentinel_tag_leaks_witness :
  exists s1 s2,
    shim_value_is 4 SHIM_TYPE_UNDEFINED built_state = Some (TRUE, s1) /\
    shim_value_release (Some 4) s1 = Some (tt, s2) /\
    live s2 4 undefined_classified_cell /\
    count (is_free_of 4) (trace s2) = count (is_free_of 4) (trace built_state).
Proof.
  apply (shim_value_is_sentinel_tag_leaks (RT := runtime) built_state 4
           undefined_cell VUndefined SHIM_TYPE_UNDEFINED).
  - reflexivity.
  - reflexivity.
  - discriminate.
  - left. split; reflexivity.
Defined.

Lemma shim_value_release_then_use_witness :
  exists s',
    shim_value_release (Some 3) built_state = Some (tt, s') /\
    freed s' 3 /\
    shim_value_release (Some 3) s' = None.
Proof.
  destruct (shim_value_release_then_use (RT := runtime) built_state 3
              number_cell) as (s' & Hrel & Hfreed & _ & Hagain & _).
  - reflexivity.
  - reflexivity.
  - reflexivity.
  - exists s'. split; [exact Hrel|]. split; [exact Hfreed | exact Hagain].
Defined.

Lemma Static_ignores_callback_result_witness :
  Static true (call_with cb_noop) initial_state
  = Static true (call_with cb_noop_fail) initial_state.
Proof.
  apply (Static_ignores_callback_result (RT := runtime) true
           (call_with cb_noop) (call_with cb_noop_fail) initial_state
           built_frame built_state true false built_frame built_state).
  - reflexivity.
  - reflexivity.
  - reflexivity.
  - run.
  - run.
  - run.
Defined.

Lemma Static_returns_slot_value_witness :
  exists s3,
    Static true (call_with cb_return_seven) initial_state
    = Some (mk_outcome None (Some (VNumber 7)), s3) /\
    live s3 5 seven_cell.
Proof.
  destruct (Static_returns_slot_value (RT := runtime) true
              (call_with cb_return_seven) initial_state built_frame
              built_state true returned_frame returned_state 5 seven_cell
              (VNumber 7)) as (s3 & Hrun & Hkept).
  - simpl; lia.
  - run.
  - run.
  - repeat split; repeat constructor; eexists; reflexivity.
  - reflexivity.
  - reflexivity.
  - reflexivity.
  - reflexivity.
  - reflexivity.
  - exists s3. split; [exact Hrun|]. apply Hkept.
    intros Hin. simpl in Hin.
    repeat (apply elem_of_cons in Hin as [Hin|Hin]; [discriminate Hin|]).
    by apply elem_of_nil in Hin.
Defined.

Lemma Static_frees_frame_witness :
  exists out s3,
    Static true (call_with cb_classify_fail) initial_state = Some (out, s3) /\
    freed s3 2 /\ freed s3 3 /\ live s3 4 undefined_classified_cell.
Proof.
  destruct (Static_frees_frame (RT := runtime) true
              (call_with cb_classify_fail) initial_state built_frame
              built_state false built_frame classified_state)
    as (out & s3 & Hrun & _ & Hframe & _).
  - simpl; lia.
  - run.
  - run.
  - repeat split; repeat constructor; eexists; reflexivity.
  - exists (VUndefined, classified_state). reflexivity.
  - exists out, s3. split; [exact Hrun|].
    split; [|split].
    + apply (Hframe 2 receiver_cell); [|reflexivity].
      simpl. apply list_elem_of_further, list_elem_of_further, list_elem_of_here.
    + apply (Hframe 3 number_cell); [|reflexivity].
      simpl. apply list_elem_of_here.
    + apply (Hframe 4 undefined_classified_cell); [|reflexivity].
      simpl. apply list_elem_of_further, list_elem_of_here.
Defined.

Lemma shim_exception_round_trip_witness :
  let s1 := with_exception number_object_state (Some (VNumber 42)) in
  shim_exception_set 2 number_object_state = Some (tt, s1) /\
  shim_exception_get 5 s1
  = Some (TRUE, with_heap s1
                  (<[5 := Some (mk_val (Some (VNumber 42)) SHIM_TYPE_UNKNOWN)]>
                     (heap number_object_state))) /\
  shim_exception_get 5 (with_exception number_object_state None)
  = Some (TRUE, with_heap (with_exception number_object_state None)
                  (<[5 := Some empty_cell]> (heap number_object_state))).
Proof.
  destruct (shim_exception_round_trip (RT := runtime) number_object_state 2 5
              number_cell empty_cell)
    as (Hset & _ & Hget & _ & _ & Hnone).
  - reflexivity.
  - reflexivity.
  - split; [exact Hset|]. split; [exact Hget | exact Hnone].
Defined.

Lemma shim_unpack_surplus_arguments_witness :
  shim_unpack number_object_frame SHIM_TYPE_NUMBER
    [VaDest 0; VaType SHIM_TYPE_UNKNOWN] number_object_state
  = Some (TRUE, number_unpacked_state).
Proof.
  destruct (shim_unpack_surplus_arguments (RT := runtime) number_object_frame
              [(SHIM_TYPE_NUMBER, 0)] number_object_state
              number_unpacked_state) as (Hrun & _).
  - repeat constructor; discriminate.
  - simpl; lia.
  - apply unpacked_cons with (s1 := number_unpacked_state);
      [run | apply unpacked_nil].
  - exact Hrun.
Defined.

Lemma shim_unpack_type_refused_still_tags_witness :
  (exists s',
     shim_unpack_type 4 SHIM_TYPE_UNDEFINED 0 built_dest_state
     = Some (FALSE, s') /\
     dests s' = [RawUninit] /\
     live s' 4 undefined_classified_cell) /\
  shim_unpack_type 4 SHIM_TYPE_UNDEFINED 1 built_dest_state = None.
Proof.
  destruct (shim_unpack_type_refused_still_tags (RT := runtime)
              built_dest_state 4 undefined_cell SHIM_TYPE_UNDEFINED 0)
    as ((s' & Hrun & Hdests & _ & Htag) & Hmissing).
  - reflexivity.
  - reflexivity.
  - right. eexists; reflexivity.
  - simpl; lia.
  - split.
    + exists s'. split; [exact Hrun|]. split; [exact Hdests|].
      apply (Htag VUndefined IsUndefined); reflexivity.
    + apply (Hmissing 1); [simpl; lia|].
      right. exists VUndefined, IsUndefined. repeat split; reflexivity.
Defined.

Lemma shim_unpack_type_extracts_witness :
  exists s',
    shim_unpack_type 2 SHIM_TYPE_INTEGER 0 number_frame_state = Some (TRUE, s') /\
    dests s' = [RawInt64 42; RawUninit].
Proof.
  destruct (shim_unpack_type_extracts (RT := runtime) number_frame_state 2
              number_cell (VNumber 42) SHIM_TYPE_INTEGER 0 (RawInt64 42))
    as (s' & Hrun & Hdests & _).
  - reflexivity.
  - reflexivity.
  - reflexivity.
  - right. exists IsNumber. split; reflexivity.
  - discriminate.
  - simpl; lia.
  - exists s'. split; [exact Hrun | exact Hdests].
Defined.

Lemma shim_type_str_injective_witness :
  SHIM_TYPE_NUMBER = SHIM_TYPE_NUMBER /\
  shim_type_str SHIM_TYPE_NUMBER = "SHIM_TYPE_NUMBER".
Proof.
  split; [|reflexivity].
  apply (shim_type_str_injective SHIM_TYPE_NUMBER SHIM_TYPE_NUMBER).
  reflexivity.
Defined.

Lemma shim_vals_to_handles_translation_witness :
  exists hs,
    shim_vals_to_handles 4 [Some 2; None; Some 0; Some 1] number_object_state
    = Some (hs, number_object_state) /\
    length hs = 4 /\
    hs !! 1 = Some (Some VNull) /\
    hs !! 2 = Some (Some VUndefined).
Proof.
  destruct (shim_vals_to_handles_translation (RT := runtime)
              number_object_state 4 [Some 2; None; Some 0; Some 1])
    as (hs & Hrun & Hlen & Hnull & Hval & _).
  - simpl; lia.
  - repeat constructor; eexists; reflexivity.
  - exists hs. split; [exact Hrun|]. split; [exact Hlen|]. split.
    + apply Hnull; [lia | reflexivity].
    + apply (Hval 2 0 shim__undefined); [lia | reflexivity | reflexivity].
Defined.

Lemma shim_persistent_new_dispose_witness :
  exists p s1 s2,
    shim_persistent_new 2 number_object_state = Some (p, s1) /\
    shim_obj_clone 2 number_object_state = Some (p, s1) /\
    live s1 p number_cell /\
    live s1 2 number_cell /\ p <> 2 /\
    shim_persistent_dispose p s1 = Some (tt, s2) /\
    freed s2 p /\
    (forall q, q <> p -> heap s2 !! q = heap number_object_state !! q).
Proof.
  apply (shim_persistent_new_dispose (RT := runtime) number_object_state 2
           number_cell).
  - reflexivity.
  - simpl; lia.
Defined.

Lemma shim_persistent_dispose_any_tag_witness :
  (exists s', shim_persistent_dispose 4 classified_state = Some (tt, s') /\
              freed s' 4) /\
  (exists s', shim_value_release (Some 4) classified_state = Some (tt, s') /\
              live s' 4 undefined_classified_cell).
Proof.
  destruct (shim_persistent_dispose_any_tag (RT := runtime) classified_state 4
              undefined_classified_cell)
    as ((s1 & Hd & Hf & _) & (s2 & Hr & Hl & _) & _).
  - reflexivity.
  - reflexivity.
  - reflexivity.
  - split; [exists s1 | exists s2]; split; assumption.
Defined.

Lemma shim_array_get_keeps_tag_witness :
  shim_array_get 2 0 3 array_state = Some (TRUE, array_fetched_state) /\
  shim_value_is 3 SHIM_TYPE_NUMBER array_fetched_state
  = Some (TRUE, array_fetched_state) /\
  IsNumber (VString "elt") = false.
Proof.
  destruct (shim_array_get_keeps_tag (RT := runtime) array_state 2 array_cell
              (VArray 1) 0 3 old_number_cell)
    as (Hget & His & _).
  - reflexivity.
  - reflexivity.
  - reflexivity.
  - split; [exact Hget|]. split; [exact His | reflexivity].
Defined.

Lemma shim_obj_set_funcs_balanced_witness :
  exists s',
    shim_obj_set_funcs 3 good_table object_frame_state = Some (TRUE, s') /\
    heap s' = heap object_frame_state ++ [None; None].
Proof.
  destruct (shim_obj_set_funcs_balanced (RT := runtime) object_frame_state 3
              receiver_cell (VObject 1) good_table 2 fspec_end)
    as (s' & Hrun & Hheap & _).
  - reflexivity.
  - reflexivity.
  - simpl; lia.
  - reflexivity.
  - reflexivity.
  - intros [|[|j]] Hj; [eexists; split; reflexivity..|lia].
  - exists s'. split; [exact Hrun | exact Hheap].
Defined.

Lemma shim_obj_set_funcs_refused_witness :
  exists s',
    shim_obj_set_funcs 3 frozen_table object_frame_state = Some (FALSE, s') /\
    heap s'
    = heap object_frame_state
        ++ [None; Some (mk_val (Some (VFunction 6)) SHIM_TYPE_UNKNOWN)].
Proof.
  destruct (shim_obj_set_funcs_refused (RT := runtime) object_frame_state 3
              receiver_cell (VObject 1) frozen_table 1 (fspec "frozen")
              "frozen")
    as (s' & Hrun & Hheap & _).
  - reflexivity.
  - reflexivity.
  - simpl; lia.
  - reflexivity.
  - reflexivity.
  - reflexivity.
  - intros [|j] Hj; [eexists; split; reflexivity|lia].
  - exists s'. split; [exact Hrun | exact Hheap].
Defined.

Lemma shim_module_initialize_exception_witness :
  exists s3,
    shim_module_initialize init_fail (VObject 1) (VObject 2)
      SHIM_TYPE_UNKNOWN SHIM_TYPE_UNKNOWN initial_state
    = Some (tt, s3) /\
    trycatch s3 = Some (VError SHIM_ERR_ERROR "Failed to initialize module").
Proof.
  destruct (shim_module_initialize_exception (RT := runtime) init_fail
              (VObject 1) (VObject 2) SHIM_TYPE_UNKNOWN SHIM_TYPE_UNKNOWN
              initial_state false module_state)
    as (s3 & Hrun & Hexc & _).
  - reflexivity.
  - eexists; reflexivity.
  - eexists; reflexivity.
  - exists s3. split; [exact Hrun | exact Hexc].
Defined.

End Runs.
